(** * Schema-driven intake form: a model of [renderer.js] and [script.js]

    The development embeds the form renderer (schema -> DOM -> answer
    model), the JSON export and the DOCX generation trigger, and proves the
    properties the specification states about them.

    Conventions of the embedding.
    - A JavaScript string is a [string]: the bytes of its UTF-8 encoding.
    - The answer model, a plain object used as a dictionary, is a
      [gmap string string] over its own properties.
    - The DOM is a tree of [Node]s.  The HTML templates the renderers assign
      to [innerHTML] are embedded as the element trees they denote when the
      interpolated schema strings carry no markup; white-space text nodes
      between the elements of a template are left out.  The CSS selectors
      built from schema identifiers are embedded as the tests they denote
      when the identifiers carry no selector syntax: by tag, by attribute
      value, by id.
    - Event handlers are first-order values ([Handler]), one constructor per
      closure of the source, interpreted by [run_handler].  An event runs
      the listeners of its target; no ancestor of a control has a listener
      for [input] or [change].
    - Code that can throw returns an [Outcome]; code that mutates the page
      threads a [Page] through the monad [M].
    - The collaborators that are not part of the two files (the fetch of the
      schema and of the template, the templating libraries, the store of
      db.js, the clock) enter as arguments: [FetchResult], [DocEnv]. *)

From Stdlib Require Import ZArith Ascii String Lia.
From stdpp Require Import gmap strings list fin_maps pretty sorting.

Open Scope string_scope.
Open Scope list_scope.

(** ** JavaScript outcomes *)

Inductive JsError :=
| TypeError (msg : string)
| Error (msg : string).

Inductive Outcome (A : Type) :=
| Return (a : A)
| Throw (e : JsError).
Arguments Return {A} a.
Arguments Throw {A} e.

(** ** The schema (perguntas.json) *)

(** One descriptor of the schema.  [options] is [None] when the property is
    absent from the JSON object; an absent [has_observation] is falsy. *)
Record Item := {
  id : string;
  type : string;
  text : string;
  options : option (list string);
  has_observation : bool
}.

(** ** The answer model: [export const model = {}] *)

Abbreviation Model := (gmap string string).

Definition model : Model := ∅.

(** ** The DOM *)

Inductive EventType := ev_input | ev_change | ev_click.

(** The closures the two files register as listeners. *)
Inductive Handler :=
| h_model_key (key : string)  (* e => model[key] = e.target.value *)
| h_model_target_id           (* e => model[e.target.id] = e.target.value *)
| h_model_target_name         (* e => model[e.target.name] = e.target.value *)
| h_model_range               (* slider: model[e.target.id] = value, mirrored *)
| h_toggle_section.           (* () => content/title classList.toggle *)

Record Listener := { on_event : EventType; handler : Handler }.

#[warnings="-register-all"]
Inductive Node :=
| Element (tag : string) (attrs : list (string * string))
          (listeners : list Listener) (children : list Node)
| Text (data : string).

#[global] Instance EventType_eq_dec : EqDecision EventType.
Proof. solve_decision. Defined.


Definition attributes (n : Node) : list (string * string) :=
  match n with Element _ a _ _ => a | Text _ => [] end.

Definition listenersOf (n : Node) : list Listener :=
  match n with Element _ _ l _ => l | Text _ => [] end.

Definition childNodes (n : Node) : list Node :=
  match n with Element _ _ _ c => c | Text _ => [] end.

Fixpoint assoc (k : string) (l : list (string * string)) : option string :=
  match l with
  | [] => None
  | (k', v) :: rest => if decide (k' = k) then Some v else assoc k rest
  end.

Definition getAttribute (a : string) (n : Node) : option string :=
  assoc a (attributes n).

(** A reflected property ([e.id], [e.name], [e.className]): the attribute, or
    the empty string when it is not set. *)
Definition reflected (a : string) (n : Node) : string :=
  default "" (getAttribute a n).

(** [element.setAttribute(k, v)] *)
Fixpoint set_assoc (k v : string) (l : list (string * string))
  : list (string * string) :=
  match l with
  | [] => [(k, v)]
  | (k', v') :: rest =>
      if decide (k' = k) then (k, v) :: rest else (k', v') :: set_assoc k v rest
  end.

Definition setAttribute (k v : string) (n : Node) : Node :=
  match n with
  | Element t a l c => Element t (set_assoc k v a) l c
  | Text _ => n
  end.

(** [element.addEventListener(ev, h)] *)
Definition addEventListener (ev : EventType) (h : Handler) (n : Node) : Node :=
  match n with
  | Element t a l c => Element t a (l ++ [{| on_event := ev; handler := h |}]) c
  | Text _ => n
  end.

(** [parent.appendChild(child)] *)
Definition appendChild (child : Node) (parent : Node) : Node :=
  match parent with
  | Element t a l c => Element t a l (c ++ [child])
  | Text _ => parent
  end.

(** [element.innerHTML = ...], with the markup already read as nodes. *)
Definition set_innerHTML (kids : list Node) (n : Node) : Node :=
  match n with
  | Element t a l _ => Element t a l kids
  | Text _ => n
  end.

(** The concatenated text of a node, [textContent]. *)
Fixpoint textContent (n : Node) : string :=
  match n with
  | Text s => s
  | Element _ _ _ kids => foldr (fun k acc => textContent k +:+ acc) "" kids
  end.

(** The node reached from [n] through the child positions of [path]. *)
Fixpoint node_at (path : list nat) (n : Node) : option Node :=
  match path with
  | [] => Some n
  | i :: rest =>
      match childNodes n !! i with
      | Some k => node_at rest k
      | None => None
      end
  end.

(** *** Selectors *)

Inductive Selector :=
| sel_tag (t : string)                 (* input *)
| sel_tag_attr (t a v : string)        (* input[name="v"] *)
| sel_id (i : string).                 (* #i *)

Definition matches (s : Selector) (n : Node) : bool :=
  match n with
  | Text _ => false
  | Element t _ _ _ =>
      match s with
      | sel_tag t' => bool_decide (t = t')
      | sel_tag_attr t' a v =>
          bool_decide (t = t') && bool_decide (getAttribute a n = Some v)
      | sel_id i => bool_decide (getAttribute "id" n = Some i)
      end
  end.

(** [n.querySelector(s)] followed by an update [f] of the element found:
    the first descendant of [n] in document order that matches [s]; [None]
    when there is none, where the source would dereference [null]. *)
Fixpoint update_first (s : Selector) (f : Node -> Node) (n : Node)
  : option Node :=
  match n with
  | Text _ => None
  | Element t a l kids =>
      let fix go (ks : list Node) : option (list Node) :=
        match ks with
        | [] => None
        | k :: rest =>
            if matches s k then Some (f k :: rest)
            else match update_first s f k with
                 | Some k' => Some (k' :: rest)
                 | None => match go rest with
                           | Some rest' => Some (k :: rest')
                           | None => None
                           end
                 end
        end in
      match go kids with
      | Some kids' => Some (Element t a l kids')
      | None => None
      end
  end.


(** [n.querySelectorAll(...).forEach(r => f r)] for a test on the element
    alone and an [f] that leaves the descendants of [r] as they are. *)
Fixpoint update_where (test : Node -> bool) (f : Node -> Node) (n : Node) : Node :=
  match n with
  | Text _ => n
  | Element t a l kids =>
      Element t a l
        (map (fun k => let k' := update_where test f k in
                       if test k then f k' else k') kids)
  end.

Definition update_all (s : Selector) (f : Node -> Node) (n : Node) : Node :=
  update_where (matches s) f n.

(** ** The page: what rendering reads and mutates *)

Inductive ConsoleEntry :=
| console_error (msg : string)
| console_warn (msg arg : string)
| console_log (msg : string).

(** [root] is [document.getElementById("formulario")], [None] for [null];
    [perguntas] is the module variable of the same name. *)
Record Page := {
  root : option Node;
  perguntas : list Item;
  console : list ConsoleEntry
}.

Definition M (A : Type) : Type := Page -> Outcome A * Page.

Definition ret {A} (a : A) : M A := fun p => (Return a, p).

Definition throw {A} (e : JsError) : M A := fun p => (Throw e, p).

Definition bind {A B} (c : M A) (k : A -> M B) : M B :=
  fun p => match c p with
           | (Return a, p') => k a p'
           | (Throw e, p') => (Throw e, p')
           end.

Notation "'do' x <- c ; k" := (bind c (fun x => k))
  (at level 10, x name, c at level 100, k at level 200).

Definition lift {A} (o : Outcome A) : M A := fun p => (o, p).

Definition log (e : ConsoleEntry) : M unit :=
  fun p => (Return tt,
            {| root := root p; perguntas := perguntas p;
               console := console p ++ [e] |}).

(** A reference to a child of [root], the way [secAtual] holds one. *)
Definition SectionRef := nat.

(** [root.appendChild(n)], returning the position of the new child. *)
Definition root_appendChild (n : Node) : M SectionRef :=
  fun p => match root p with
           | None =>
               (Throw (TypeError "Cannot read properties of null (reading 'appendChild')"), p)
           | Some r =>
               (Return (length (childNodes r)),
                {| root := Some (appendChild n r); perguntas := perguntas p;
                   console := console p |})
           end.

(** [section.appendChild(n)] for a section held by reference. *)
Definition section_appendChild (sec : SectionRef) (n : Node) : M Node :=
  fun p => (Return n,
            {| root := set_innerHTML
                         (alter (appendChild n) sec (from_option childNodes [] (root p)))
                         <$> root p;
               perguntas := perguntas p;
               console := console p |}).

(** ** renderer.js *)

Inductive FetchResult :=
| fetch_rejected (e : JsError)
| fetch_response (ok : bool) (status : nat) (json : Outcome (list Item)).

(** [carregarPerguntas]: one fetch of the schema, no retry. *)
Definition carregarPerguntas (r : FetchResult) : M unit :=
  match r with
  | fetch_rejected e => throw e
  | fetch_response ok status json =>
      if negb ok
      then throw (Error ("Falhou ao carregar perguntas.json: " +:+ pretty status))
      else do ps <- lift json;
           fun p => (Return tt,
                     {| root := root p; perguntas := ps; console := console p |})
  end.

(** The [opts] argument of [el]; an empty string stands for an absent (or
    falsy) property. *)
Record ElOpts := {
  cls : string;
  opt_id : string;
  opt_attrs : list (string * string)
}.

Definition opts_cls (c : string) : ElOpts :=
  {| cls := c; opt_id := ""; opt_attrs := [] |}.

(** [el(tag, opts, inner)] *)
Definition el (tag : string) (opts : ElOpts) (inner : string) : Node :=
  let e := Element tag [] [] [] in
  let e := if decide (cls opts = "") then e else setAttribute "class" (cls opts) e in
  let e := if decide (opt_id opts = "") then e else setAttribute "id" (opt_id opts) e in
  let e := foldl (fun e kv => setAttribute kv.1 kv.2 e) e (opt_attrs opts) in
  if decide (inner = "") then e else set_innerHTML [Text inner] e.

(** The element found by [sel] gets the listener; a [null] result throws. *)
Definition listen_first (sel : Selector) (ev : EventType) (h : Handler)
    (wrap : Node) : Outcome Node :=
  match update_first sel (addEventListener ev h) wrap with
  | Some wrap' => Return wrap'
  | None =>
      Throw (TypeError "Cannot read properties of null (reading 'addEventListener')")
  end.

Definition listen_all (sel : Selector) (ev : EventType) (h : Handler)
    (wrap : Node) : Node :=
  update_all sel (addEventListener ev h) wrap.

Definition label_for (item : Item) : Node :=
  Element "label" [("for", id item)] [] [Text (text item)].

Definition input_of (ty : string) (item : Item) : Node :=
  Element "input" [("type", ty); ("id", id item); ("name", id item)] [] [].

Definition renderText (item : Item) : Outcome Node :=
  let wrap := el "div" (opts_cls "campo") "" in
  let wrap := set_innerHTML [label_for item; input_of "text" item] wrap in
  listen_first (sel_tag "input") ev_input (h_model_key (id item)) wrap.

Definition renderNumber (item : Item) : Outcome Node :=
  let wrap := el "div" (opts_cls "campo") "" in
  let wrap := set_innerHTML [label_for item; input_of "number" item] wrap in
  listen_first (sel_tag "input") ev_input (h_model_key (id item)) wrap.

Definition renderDate (item : Item) : Outcome Node :=
  let wrap := el "div" (opts_cls "campo") "" in
  let wrap := set_innerHTML [label_for item; input_of "date" item] wrap in
  listen_first (sel_tag "input") ev_input (h_model_key (id item)) wrap.

Definition renderTextarea (item : Item) : Outcome Node :=
  let wrap := el "div" (opts_cls "campo") "" in
  let wrap :=
    set_innerHTML
      [label_for item;
       Element "textarea" [("id", id item); ("name", id item); ("rows", "3")] [] []]
      wrap in
  listen_first (sel_tag "textarea") ev_input (h_model_key (id item)) wrap.

Definition radio_option (name value : string) : Node :=
  Element "label" [] []
    [Element "input" [("type", "radio"); ("name", name); ("value", value)] [] [];
     Text (" " +:+ value)].

Definition renderSimNao (item : Item) : Outcome Node :=
  let wrap := el "div" (opts_cls "Ask") "" in
  let wrap :=
    set_innerHTML
      ([Element "label" [("class", "ask-label")] [] [Text (text item)];
        Element "div" [("class", "radio-group")] []
          [radio_option (id item) "Sim"; radio_option (id item) "Não"]]
       ++ (if has_observation item
           then [Element "textarea"
                   [("id", id item +:+ "_obs"); ("placeholder", "Observações")]
                   [] []]
           else []))
      wrap in
  let wrap :=
    listen_all (sel_tag_attr "input" "name" (id item)) ev_change
      (h_model_key (id item)) wrap in
  if has_observation item
  then listen_first (sel_id (id item +:+ "_obs")) ev_input
         (h_model_key (id item +:+ "_obs")) wrap
  else Return wrap.

Definition renderRadio (item : Item) : Outcome Node :=
  let wrap := el "div" (opts_cls "campo") "" in
  match options item with
  | None => Throw (TypeError "Cannot read properties of undefined (reading 'map')")
  | Some os =>
      let opts := map (radio_option (id item)) os in
      let wrap :=
        set_innerHTML
          [Element "label" [] [] [Text (text item)]; Element "div" [] [] opts]
          wrap in
      Return (listen_all (sel_tag_attr "input" "name" (id item)) ev_change
                (h_model_key (id item)) wrap)
  end.

(** [createSection(titleText)]: a title and a content block appended to
    [root]; the content block is returned. *)
Definition createSection (titleText : string) : M SectionRef :=
  let title := el "div" (opts_cls "section-title") titleText in
  let content := el "div" (opts_cls "section-content") "" in
  let title := addEventListener ev_click h_toggle_section title in
  do _ <- root_appendChild title;
  do c <- root_appendChild content;
  ret c.

(** The [switch] of [renderItem]: the renderer registered for a type, [None]
    for the [default] branch. *)
Definition renderer_for (ty : string) : option (Item -> Outcome Node) :=
  if decide (ty = "text") then Some renderText
  else if decide (ty = "number") then Some renderNumber
  else if decide (ty = "date") then Some renderDate
  else if decide (ty = "textarea") then Some renderTextarea
  else if decide (ty = "sim_nao") then Some renderSimNao
  else if decide (ty = "radio") then Some renderRadio
  else None.

(** [renderItem(item, section)]: the unit appended, or [None] for the
    [undefined] of the default branch. *)
Definition renderItem (item : Item) (section : SectionRef) : M (option Node) :=
  match renderer_for (type item) with
  | Some render =>
      do u <- lift (render item);
      do n <- section_appendChild section u;
      ret (Some n)
  | None =>
      do _ <- log (console_warn "Tipo desconhecido:" (type item));
      ret None
  end.

(** The callback of [perguntas.forEach], with the captured variable
    [secAtual] passed in and out. *)
Definition each_pergunta (item : Item) (secAtual : option SectionRef)
  : M (option SectionRef) :=
  if decide (type item = "group")
  then do s <- createSection (text item); ret (Some s)
  else
    do s <- match secAtual with
            | Some s => ret s
            | None => createSection "Geral"
            end;
    do _ <- renderItem item s;
    ret (Some s).

Fixpoint forEach (items : list Item) (secAtual : option SectionRef)
  : M (option SectionRef) :=
  match items with
  | [] => ret secAtual
  | item :: rest =>
      do s <- each_pergunta item secAtual; forEach rest s
  end.

Definition renderFormulario (r : FetchResult) : M unit :=
  do _ <- carregarPerguntas r;
  do ps <- (fun p => (Return (perguntas p), p));
  do _ <- forEach ps None;
  ret tt.

(** The page when the script starts: the container present and empty. *)
Definition page0 : Page :=
  {| root := Some (Element "div" [("id", "formulario")] [] []);
     perguntas := [];
     console := [] |}.

(** The sections on the page: each title's text with the children of the
    content block that follows it. *)
Fixpoint sections_of (kids : list Node) : list (string * list Node) :=
  match kids with
  | title :: content :: rest =>
      (textContent title, childNodes content) :: sections_of rest
  | _ => []
  end.

Definition sections (p : Page) : list (string * list Node) :=
  sections_of (from_option childNodes [] (root p)).

(** ** Events *)

(** What a handler reads of an event: the target, the target's [value]
    property when the event fires, and the target's next element sibling. *)
Record Event := {
  ev_type : EventType;
  target : Node;
  value : string;
  nextElementSibling : option Node
}.

(** The user types [v] into a text control. *)
Definition input_event (t : Node) (v : string) : Event :=
  {| ev_type := ev_input; target := t; value := v; nextElementSibling := None |}.

(** The user picks a radio button: its [value] is its attribute, [on] when
    the attribute is missing. *)
Definition change_event (t : Node) : Event :=
  {| ev_type := ev_change; target := t;
     value := default "on" (getAttribute "value" t);
     nextElementSibling := None |}.

Definition is_space (c : ascii) : bool :=
  let n := N_of_ascii c in
  ((n =? 32) || (n =? 9) || (n =? 10) || (n =? 12) || (n =? 13))%N.

(** The tokens of a [class] attribute. *)
Fixpoint tokens (cur : string) (s : string) : list string :=
  match s with
  | EmptyString => if decide (cur = "") then [] else [cur]
  | String c s' =>
      if is_space c
      then (if decide (cur = "") then [] else [cur]) ++ tokens "" s'
      else tokens (cur +:+ String c "") s'
  end.

(** [n.classList.contains(c)] *)
Definition classList_contains (c : string) (n : Node) : bool :=
  bool_decide (c ∈ tokens "" (reflected "class" n)).

(** What a handler does besides writing the model. *)
Inductive Effect :=
| fx_console (e : ConsoleEntry)
| fx_alert (msg : string)
| fx_fetch (url : string)
| fx_persist (snapshot : Model)
| fx_saveAs (blob : string) (filename : string)
| fx_download (content mime filename : string)
| fx_toggle_content (cls : string)
| fx_toggle_title (cls : string)
| fx_display (textContent : string).

(** One listener call: the new model and the other effects, in order. *)
Definition run_handler (h : Handler) (e : Event) (m : Model)
  : Model * list Effect :=
  match h with
  | h_model_key key => (<[key := value e]> m, [])
  | h_model_target_id =>
      (<[reflected "id" (target e) := value e]> m,
       [fx_console (console_log ("Model atualizado: " +:+ reflected "id" (target e)
                                   +:+ " = " +:+ value e))])
  | h_model_target_name =>
      (<[reflected "name" (target e) := value e]> m,
       [fx_console (console_log ("Model atualizado: " +:+ reflected "name" (target e)
                                   +:+ " = " +:+ value e))])
  | h_model_range =>
      (<[reflected "id" (target e) := value e]> m,
       match nextElementSibling e with
       | Some display =>
           if classList_contains "scale-value" display
           then [fx_display (value e)] else []
       | None => []
       end)
  | h_toggle_section => (m, [fx_toggle_content "open"; fx_toggle_title "active"])
  end.

(** The event reaches the listeners of its target, in registration order. *)
Definition dispatchEvent (e : Event) (m : Model) : Model * list Effect :=
  foldl (fun st l =>
           if decide (on_event l = ev_type e)
           then let r := run_handler (handler l) e st.1 in (r.1, st.2 ++ r.2)
           else st)
        (m, []) (listenersOf (target e)).

(** ** script.js: the listeners of [addEventListeners] *)

Definition is_scalar_control (n : Node) : bool :=
  matches (sel_tag_attr "input" "type" "text") n
  || matches (sel_tag_attr "input" "type" "number") n
  || matches (sel_tag_attr "input" "type" "date") n
  || matches (sel_tag "textarea") n
  || matches (sel_tag "select") n.

(** [forEach] over [querySelectorAll(".c sel")]: the elements matching [sel]
    below an element of class [c]; [inside] tells whether an ancestor
    already has the class. *)
Fixpoint update_within (c : string) (sel : Selector) (f : Node -> Node)
    (inside : bool) (n : Node) : Node :=
  match n with
  | Text _ => n
  | Element t a l kids =>
      let inside' := inside || classList_contains c n in
      Element t a l
        (map (fun k => let k' := update_within c sel f inside' k in
                       if inside' && matches sel k then f k' else k') kids)
  end.

Definition addEventListeners (document : Node) : Node :=
  let d := update_where is_scalar_control
             (addEventListener ev_input h_model_target_id) document in
  let d := update_within "radio-group" (sel_tag_attr "input" "type" "radio")
             (addEventListener ev_change h_model_target_name) false d in
  update_where (matches (sel_tag_attr "input" "type" "range"))
    (addEventListener ev_input h_model_range) d.

(** ** JSON text

    [JSON.stringify(model, null, 2)] and [JSON.parse] after ECMA-262, on the
    values the answer model holds: an object whose properties are strings.
    The text is the UTF-8 text the export's Blob carries. *)

Definition QUOTE : ascii := "034"%char.
Definition BACKSLASH : ascii := "092"%char.
Definition LF : ascii := "010"%char.

Definition hex_digit (n : N) : ascii :=
  ascii_of_N (if (n <? 10)%N then 48 + n else 87 + n).

(** [\u00XX] for a code unit below 256 *)
Definition unicode_escape (n : N) : string :=
  String BACKSLASH
    (String "u" (String "0" (String "0"
       (String (hex_digit (n / 16)) (String (hex_digit (n mod 16)) ""))))).

(** One code unit of QuoteJSONString. *)
Definition quote_char (c : ascii) : string :=
  let n := N_of_ascii c in
  if (n =? 8)%N then String BACKSLASH "b"
  else if (n =? 9)%N then String BACKSLASH "t"
  else if (n =? 10)%N then String BACKSLASH "n"
  else if (n =? 12)%N then String BACKSLASH "f"
  else if (n =? 13)%N then String BACKSLASH "r"
  else if (n =? 34)%N then String BACKSLASH (String QUOTE "")
  else if (n =? 92)%N then String BACKSLASH (String BACKSLASH "")
  else if (n <? 32)%N then unicode_escape n
  else String c "".

Fixpoint quote_chars (s : string) : string :=
  match s with
  | EmptyString => ""
  | String c s' => quote_char c +:+ quote_chars s'
  end.

Definition QuoteJSONString (s : string) : string :=
  String QUOTE (quote_chars s +:+ String QUOTE "").

(** A property with the two-space gap: [key: value]. *)
Definition json_member (kv : string * string) : string :=
  QuoteJSONString kv.1 +:+ ": " +:+ QuoteJSONString kv.2.

Fixpoint json_members (l : list (string * string)) : string :=
  match l with
  | [] => ""
  | [kv] => json_member kv
  | kv :: rest => json_member kv +:+ "," +:+ String LF "  " +:+ json_members rest
  end.

(** SerializeJSONObject with indent ["  "]. *)
Definition SerializeJSONObject (l : list (string * string)) : string :=
  match l with
  | [] => "{}"
  | _ => "{" +:+ String LF "  " +:+ json_members l +:+ String LF "}"
  end.

(** The properties of [m] in the order [keys] names them. *)
Definition entries (m : Model) (keys : list string) : list (string * string) :=
  omap (fun k => (fun v => (k, v)) <$> m !! k) keys.

(** [JSON.stringify(m, null, 2)], where [keys] is the order in which the
    engine enumerates the own properties of [m]. *)
Definition JSON_stringify (m : Model) (keys : list string) : string :=
  SerializeJSONObject (entries m keys).

Definition is_json_ws (c : ascii) : bool :=
  let n := N_of_ascii c in
  ((n =? 32) || (n =? 9) || (n =? 10) || (n =? 13))%N.

Fixpoint skip_ws (s : string) : string :=
  match s with
  | EmptyString => ""
  | String c s' => if is_json_ws c then skip_ws s' else s
  end.

Definition hex_value (c : ascii) : option N :=
  let n := N_of_ascii c in
  if ((48 <=? n) && (n <=? 57))%N then Some (n - 48)%N
  else if ((97 <=? n) && (n <=? 102))%N then Some (n - 87)%N
  else if ((65 <=? n) && (n <=? 70))%N then Some (n - 55)%N
  else None.

(** The UTF-8 bytes of a code point of the basic plane; a surrogate code
    unit has none. *)
Definition utf8 (cp : N) : option string :=
  if (cp <? 128)%N then Some (String (ascii_of_N cp) "")
  else if (cp <? 2048)%N then
    Some (String (ascii_of_N (192 + cp / 64))
            (String (ascii_of_N (128 + cp mod 64)) ""))
  else if ((55296 <=? cp) && (cp <=? 57343))%N then None
  else
    Some (String (ascii_of_N (224 + cp / 4096))
            (String (ascii_of_N (128 + (cp / 64) mod 64))
               (String (ascii_of_N (128 + cp mod 64)) ""))).

(** The character a two-character escape stands for. *)
Definition simple_escape (c : ascii) : option ascii :=
  let n := N_of_ascii c in
  if (n =? 34)%N then Some QUOTE
  else if (n =? 92)%N then Some BACKSLASH
  else if (n =? 47)%N then Some "/"%char
  else if (n =? 98)%N then Some "008"%char
  else if (n =? 102)%N then Some "012"%char
  else if (n =? 110)%N then Some "010"%char
  else if (n =? 114)%N then Some "013"%char
  else if (n =? 116)%N then Some "009"%char
  else None.

(** The characters of a JSON string after its opening quote: the string
    denoted and the text after the closing quote. *)
Fixpoint parse_chars (s : string) : option (string * string) :=
  match s with
  | EmptyString => None
  | String c s' =>
      if Ascii.eqb c QUOTE then Some ("", s')
      else if Ascii.eqb c BACKSLASH then
        match s' with
        | EmptyString => None
        | String e s'' =>
            match simple_escape e with
            | Some d =>
                match parse_chars s'' with
                | Some (r, rest) => Some (String d r, rest)
                | None => None
                end
            | None =>
                if Ascii.eqb e "u" then
                  match s'' with
                  | String h1 (String h2 (String h3 (String h4 s5))) =>
                      match hex_value h1, hex_value h2, hex_value h3, hex_value h4 with
                      | Some a, Some b, Some c', Some d =>
                          match utf8 (((a * 16 + b) * 16 + c') * 16 + d)%N,
                                parse_chars s5 with
                          | Some bytes, Some (r, rest) => Some (bytes +:+ r, rest)
                          | _, _ => None
                          end
                      | _, _, _, _ => None
                      end
                  | _ => None
                  end
                else None
            end
        end
      else if (N_of_ascii c <? 32)%N then None
      else match parse_chars s' with
           | Some (r, rest) => Some (String c r, rest)
           | None => None
           end
  end.

Definition parse_string (s : string) : option (string * string) :=
  match s with
  | String c s' => if Ascii.eqb c QUOTE then parse_chars s' else None
  | EmptyString => None
  end.

Definition expect (c : ascii) (s : string) : option string :=
  match s with
  | String c' s' => if Ascii.eqb c' c then Some s' else None
  | EmptyString => None
  end.

(** The members of an object whose values are strings, from the first
    member to the closing brace. *)
Fixpoint parse_members (fuel : nat) (s : string) (acc : list (string * string))
  : option (list (string * string) * string) :=
  match fuel with
  | O => None
  | S fuel' =>
      '(k, s1) ← parse_string s;
      s2 ← expect ":" (skip_ws s1);
      '(v, s3) ← parse_string (skip_ws s2);
      match skip_ws s3 with
      | String c s4 =>
          if Ascii.eqb c "," then parse_members fuel' (skip_ws s4) (acc ++ [(k, v)])
          else if Ascii.eqb c "}" then Some (acc ++ [(k, v)], s4)
          else None
      | EmptyString => None
      end
  end.

(** A JSON text that is an object of strings; [None] for a text that is not
    JSON and for JSON outside this fragment. *)
Definition parse_object (s : string) : option (list (string * string)) :=
  s1 ← expect "{" (skip_ws s);
  match skip_ws s1 with
  | String c s2 =>
      if Ascii.eqb c "}"
      then (if decide (skip_ws s2 = "") then Some [] else None)
      else
        '(l, rest) ← parse_members (String.length s) (String c s2) [];
        if decide (skip_ws rest = "") then Some l else None
  | EmptyString => None
  end.

(** [JSON.parse(text)]: properties are created in the order of the text, a
    repeated name overwriting the earlier value. *)
Definition JSON_parse (s : string) : option Model :=
  foldl (fun m kv => <[kv.1 := kv.2]> m) ∅ <$> parse_object s.

(** ** renderer.js: the export button *)

(** The click handler of [btnSalvar]: the model is read, never written. *)
Definition btnSalvar_click (keys : list string) (m : Model) : Model * list Effect :=
  (m, [fx_download (JSON_stringify m keys) "application/json" "respostas.json"]).

(** ** script.js: saving and document generation *)

(** The UTC fields of a [Date]; [UTCMonth] counts from 0 as [getUTCMonth]. *)
Record Date := {
  UTCFullYear : Z;
  UTCMonth : Z;
  UTCDate : Z;
  UTCHours : Z;
  UTCMinutes : Z;
  UTCSeconds : Z;
  UTCMilliseconds : Z
}.

Definition digit_char (d : Z) : ascii := ascii_of_N (48 + Z.to_N d).

(** [n] in decimal, padded with zeros to [width] digits. *)
Fixpoint digits (width : nat) (n : Z) : string :=
  match width with
  | O => ""
  | S w => digits w (n / 10) +:+ String (digit_char (n mod 10)) ""
  end.

(** [Date.prototype.toISOString]: four digits for the years 0 to 9999, a
    sign and six digits for the others. *)
Definition toISOString (d : Date) : string :=
  let y := UTCFullYear d in
  (if (0 <=? y)%Z && (y <=? 9999)%Z then digits 4 y
   else (if (y <? 0)%Z then "-" else "+") +:+ digits 6 (Z.abs y))
  +:+ "-" +:+ digits 2 (UTCMonth d + 1)
  +:+ "-" +:+ digits 2 (UTCDate d)
  +:+ "T" +:+ digits 2 (UTCHours d)
  +:+ ":" +:+ digits 2 (UTCMinutes d)
  +:+ ":" +:+ digits 2 (UTCSeconds d)
  +:+ "." +:+ digits 3 (UTCMilliseconds d)
  +:+ "Z".

(** [s.split(sep)[0]] *)
Fixpoint split_head (sep : ascii) (s : string) : string :=
  match s with
  | EmptyString => ""
  | String c s' => if Ascii.eqb c sep then "" else String c (split_head sep s')
  end.

(** [v || d] for a property that is a string or [undefined]. *)
Definition or_default (v : option string) (d : string) : string :=
  match v with
  | Some s => if decide (s = "") then d else s
  | None => d
  end.

(** The name given to [saveAs]. *)
Definition docx_filename (m : Model) (now : Date) : string :=
  let nome := or_default (m !! "ident_nome") "Paciente" in
  "Registro_" +:+ nome +:+ "_" +:+ split_head "T" (toISOString now) +:+ ".docx".

(** What [gerarDoc] finds around it: which globals are defined, what the
    fetch of the template gives, what the templating libraries make of a
    template and the data, and the clock. *)
Record DocEnv := {
  PizZip_defined : bool;
  docxtemplater_defined : bool;
  saveAs_defined : bool;
  fetch_template : Outcome string;
  docx_generate : string -> Model -> Outcome string;
  now : Date
}.

Definition gerarDoc (env : DocEnv) (m : Model) : Model * list Effect :=
  if negb (PizZip_defined env) || negb (docxtemplater_defined env)
  then (m, [fx_alert "Bibliotecas PizZip/docxtemplater não carregadas!"])
  else
    let catch (done : list Effect) : Model * list Effect :=
      (m, done ++ [fx_console (console_error "Erro ao gerar DOCX:");
                   fx_alert "Falha ao gerar documento. Verifique o console."]) in
    match fetch_template env with
    | Throw _ => catch [fx_fetch "template.docx"]
    | Return content =>
        match docx_generate env content m with
        | Throw _ => catch [fx_fetch "template.docx"]
        | Return out =>
            if saveAs_defined env
            then (m, [fx_fetch "template.docx";
                      fx_saveAs out (docx_filename m (now env));
                      fx_alert "Documento gerado com sucesso!"])
            else catch [fx_fetch "template.docx"]
        end
    end.

(** The click handler of the Save button of script.js; [salvarPaciente] is
    the persistence collaborator of db.js, given the model to store. *)
Definition btnSalvar_save (salvarPaciente : Model -> Outcome unit) (m : Model)
  : Model * list Effect :=
  let logged := [fx_console (console_log "Modelo para salvar:"); fx_persist m] in
  match salvarPaciente m with
  | Return _ => (m, logged ++ [fx_alert "Paciente salvo com sucesso!"])
  | Throw _ => (m, logged ++ [fx_console (console_error "Erro ao salvar:");
                              fx_alert "Erro ao salvar paciente."])
  end.

(** ** A session: the operations that reach the model *)

Inductive Operation :=
| op_dispatch (e : Event)
| op_save (salvarPaciente : Model -> Outcome unit)
| op_export (keys : list string)
| op_gerarDoc (env : DocEnv).

Definition step (op : Operation) (m : Model) : Model * list Effect :=
  match op with
  | op_dispatch e => dispatchEvent e m
  | op_save db => btnSalvar_save db m
  | op_export keys => btnSalvar_click keys m
  | op_gerarDoc env => gerarDoc env m
  end.

Definition run (ops : list Operation) (m : Model) : Model :=
  foldl (fun m op => (step op m).1) m ops.

(** ** The assembler of the specification

    The two-state machine of the specification over the descriptor
    sequence, to be compared with [renderFormulario]: the state is the list
    of sections opened so far, the last one being the active one; with no
    section open the machine is in its initial state. *)

(** The units a descriptor contributes: one for a descriptor that renders,
    none otherwise. *)
Definition units_of (item : Item) : list Node :=
  match renderer_for (type item) with
  | Some render =>
      match render item with
      | Return u => [u]
      | Throw _ => []
      end
  | None => []
  end.

(** The descriptor renders without an exception. *)
Definition renders (item : Item) : bool :=
  match renderer_for (type item) with
  | Some render =>
      match render item with
      | Return _ => true
      | Throw _ => false
      end
  | None => true
  end.

Definition is_group (item : Item) : bool := bool_decide (type item = "group").

Definition append_to_last (us : list Node) (secs : list (string * list Node))
  : list (string * list Node) :=
  match reverse secs with
  | [] => []
  | (label, content) :: before => reverse before ++ [(label, content ++ us)]
  end.

Definition assembler_step (default_label : string)
    (secs : list (string * list Node)) (item : Item)
  : list (string * list Node) :=
  if is_group item then secs ++ [(text item, [])]
  else append_to_last (units_of item)
         (match secs with [] => [(default_label, [])] | _ => secs end).

Definition assembler (default_label : string) (items : list Item)
  : list (string * list Node) :=
  foldl (assembler_step default_label) [] items.

(** A schema cut at its group descriptors: the descriptors of each block
    follow the group descriptor that opens it. *)
Definition flatten_blocks (blocks : list (Item * list Item)) : list Item :=
  concat (map (fun b => b.1 :: b.2) blocks).

(** The date part of an ISO time stamp: [YYYY-MM-DD]. *)
Definition is_digit (c : ascii) : bool :=
  let n := N_of_ascii c in ((48 <=? n) && (n <=? 57))%N.

Definition is_yyyy_mm_dd (s : string) : bool :=
  match s with
  | String y1 (String y2 (String y3 (String y4 (String d1
      (String m1 (String m2 (String d2 (String a1 (String a2 EmptyString))))))))) =>
      is_digit y1 && is_digit y2 && is_digit y3 && is_digit y4
      && Ascii.eqb d1 "-" && is_digit m1 && is_digit m2
      && Ascii.eqb d2 "-" && is_digit a1 && is_digit a2
  | _ => false
  end.

(** ** Vocabulary of the statements *)

(** Two nodes with the same tag and attributes: selectors on the element
    alone do not tell them apart. *)
Definition shell (n : Node) : option (string * list (string * string)) :=
  match n with
  | Element t a _ _ => Some (t, a)
  | Text _ => None
  end.

Definition same_element (n n' : Node) : Prop := shell n = shell n'.

(** The write [m] to [m']: [key] now holds [v], every other key is as it
    was. *)
Definition writes_only (key v : string) (m m' : Model) : Prop :=
  m' !! key = Some v ∧ ∀ k, k ≠ key → m' !! k = m !! k.

(** ** The examples of the specification *)

Definition group_A : Item :=
  {| id := ""; type := "group"; text := "A"; options := None;
     has_observation := false |}.

Definition item_x : Item :=
  {| id := "x"; type := "text"; text := "X"; options := None;
     has_observation := false |}.



Definition item_z : Item :=
  {| id := "z"; type := "text"; text := "Z"; options := None;
     has_observation := false |}.

(** A descriptor of a type no renderer is registered for. *)
Definition item_q : Item :=
  {| id := "q"; type := "foo"; text := "Q"; options := None;
     has_observation := false |}.

(** A radio descriptor without [options]. *)
Definition item_r : Item :=
  {| id := "r"; type := "radio"; text := "R"; options := None;
     has_observation := false |}.


(** A cut schema is well formed: a group descriptor opens each block and
    none occurs inside one. *)
Definition block_ok (b : Item * list Item) : Prop :=
  is_group b.1 = true ∧ Forall (fun i => is_group i = false) b.2.



(** An environment in which neither templating library is loaded. *)
Definition env_no_libs : DocEnv :=
  {| PizZip_defined := false;
     docxtemplater_defined := false;
     saveAs_defined := true;
     fetch_template := Return "PK";
     docx_generate := fun _ _ => Return "PK";
     now := {| UTCFullYear := 2026; UTCMonth := 10; UTCDate := 2; UTCHours := 19;
               UTCMinutes := 5; UTCSeconds := 9; UTCMilliseconds := 42 |} |}.


(** ** The page as a list of sections *)

(** The two nodes [createSection] appends for a section. *)
Definition section_title (label : string) : Node :=
  addEventListener ev_click h_toggle_section
    (el "div" (opts_cls "section-title") label).

Definition section_content (units : list Node) : Node :=
  Element "div" [("class", "section-content")] [] units.

Definition section_nodes (secs : list (string * list Node)) : list Node :=
  flat_map (fun s => [section_title s.1; section_content s.2]) secs.

(** The container holds exactly the sections [secs]. *)
Definition on_page (p : Page) (secs : list (string * list Node)) : Prop :=
  ∃ t a l, root p = Some (Element t a l (section_nodes secs)).

(** The value of [secAtual] once the sections [secs] are open: a reference
    to the content block of the last one. *)
Definition current_ref (secs : list (string * list Node)) : option SectionRef :=
  match secs with
  | [] => None
  | _ => Some (2 * length secs - 1)
  end.

(** The sections after a descriptor that is not a group has been reached:
    the default one is open when no other is. *)
Definition open_default (default_label : string)
    (secs : list (string * list Node)) : list (string * list Node) :=
  match secs with
  | [] => [(default_label, [])]
  | _ => secs
  end.

(** The warning of the default branch of [renderItem]. *)
Definition warnings_of (item : Item) : list ConsoleEntry :=
  if is_group item then []
  else match renderer_for (type item) with
       | Some _ => []
       | None => [console_warn "Tipo desconhecido:" (type item)]
       end.

(** Assembly of a schema that loaded, on the page of the start. *)
Definition assemble (schema : list Item) : Outcome unit * Page :=
  renderFormulario (fetch_response true 200 (Return schema)) page0.


(** An environment in which document generation goes through. *)
Definition env_ready : DocEnv :=
  {| PizZip_defined := true;
     docxtemplater_defined := true;
     saveAs_defined := true;
     fetch_template := Return "PK";
     docx_generate := fun _ _ => Return "PK";
     now := {| UTCFullYear := 2026; UTCMonth := 10; UTCDate := 2; UTCHours := 19;
               UTCMinutes := 5; UTCSeconds := 9; UTCMilliseconds := 42 |} |}.

(** The answer model of the specification's export example. *)
Definition model_maria : Model :=
  <["dor" := "Sim"]> (<["ident_nome" := "Maria"]> model).


(** The text [JSON.stringify(model_maria, null, 2)] gives. *)
Definition text_maria : string :=
  "{" +:+ String LF "  " +:+ String QUOTE "ident_nome" +:+ String QUOTE ": "
      +:+ String QUOTE "Maria" +:+ String QUOTE ","
      +:+ String LF "  " +:+ String QUOTE "dor" +:+ String QUOTE ": "
      +:+ String QUOTE "Sim" +:+ String QUOTE "" +:+ String LF "}".


(** The descriptors the loop of [renderFormulario] reaches: all of them, or
    those up to the first one whose render throws. *)
Fixpoint reached (items : list Item) : list Item :=
  match items with
  | [] => []
  | item :: rest => if renders item then item :: reached rest else [item]
  end.


(** ** renderer.js: the start of the module *)

(** The page when the module has run its first statements: the container
    looked up, an error logged when it is missing. *)
Definition page_init (container : option Node) : Page :=
  {| root := container;
     perguntas := [];
     console := match container with
                | Some _ => []
                | None => [console_error "ERRO: container #formulario não encontrado."]
                end |}.

(** ** The listeners of a tree and the keys of a schema *)

(** Every listener registered on a node or below it, in document order. *)
Fixpoint listeners_in (n : Node) : list Listener :=
  match n with
  | Text _ => []
  | Element _ _ l kids =>
      l ++ (let fix go (ks : list Node) : list Listener :=
              match ks with
              | [] => []
              | k :: rest => listeners_in k ++ go rest
              end in
            go kids)
  end.

(** The keys the units of a descriptor write: its id, and the observation
    key for a Yes/No descriptor that has one. *)
Definition item_keys (item : Item) : list string :=
  id item
  :: (if bool_decide (type item = "sim_nao") && has_observation item
      then [id item +:+ "_obs"] else []).

Definition schema_keys (schema : list Item) : gset string :=
  list_to_set (flat_map item_keys schema).

(** Whether a node on the way from [n] down to the node at [path], the
    target left out, has the class [c]. *)
Fixpoint inside_at (c : string) (path : list nat) (n : Node) : bool :=
  match path with
  | [] => false
  | i :: rest =>
      classList_contains c n
      || match childNodes n !! i with
         | Some k => inside_at c rest k
         | None => false
         end
  end.

(** The node without the listeners on it and below it. *)
Fixpoint strip_listeners (n : Node) : Node :=
  match n with
  | Text _ => n
  | Element t a _ kids => Element t a [] (map strip_listeners kids)
  end.

(** The messages of the blocking notifications among some effects. *)
Definition alerts (fx : list Effect) : list string :=
  omap (fun e => match e with fx_alert msg => Some msg | _ => None end) fx.

(** The URLs fetched among some effects. *)
Definition fetches (fx : list Effect) : list string :=
  omap (fun e => match e with fx_fetch url => Some url | _ => None end) fx.

(** The files handed to [saveAs] among some effects. *)
Definition saved (fx : list Effect) : list (string * string) :=
  omap (fun e => match e with fx_saveAs b n => Some (b, n) | _ => None end) fx.

(** ** script.js: sections by order key *)

Module Script.

(** [secao.meta] and [secao.schema]; [fields] is [None] when the property is
    absent.  The order key is an integer. *)
Record Meta := { id : string; titulo : string; ordenacao : Z }.

Record Schema (Field : Type) := {
  type : string;
  fields : option (list Field)
}.
Arguments type {Field} _.
Arguments fields {Field} _.

Record Secao (Field : Type) := { meta : Meta; schema : Schema Field }.
Arguments meta {Field} _.
Arguments schema {Field} _.

Section render.
Context {Field : Type}.

(** The global [renderField] of another file, called by [Array.map] with
    the field, its index and the array. *)
Variable renderField : Field -> nat -> list Field -> string.

(** What the page is once [app.innerHTML] holds some markup. *)
Variable set_app_innerHTML : string -> Node -> Node.

(** [l.sort((a, b) => a.meta.ordenacao - b.meta.ordenacao)]: the sort is
    stable, so its result is the one of inserting each section before the
    sections of a greater key that follow it. *)
Fixpoint insert_by_ordenacao (s : Secao Field) (l : list (Secao Field))
  : list (Secao Field) :=
  match l with
  | [] => [s]
  | x :: rest =>
      if (ordenacao (meta x) <? ordenacao (meta s))%Z
      then x :: insert_by_ordenacao s rest
      else s :: x :: rest
  end.

Definition sort (l : list (Secao Field)) : list (Secao Field) :=
  foldr insert_by_ordenacao [] l.

Definition supported (ty : string) : bool :=
  bool_decide (ty = "checklist") || bool_decide (ty = "form")
  || bool_decide (ty = "checklist_com_escala").

(** The template literal [renderSecao] returns. *)
Definition secao_html (id titulo camposHTML : string) : string :=
  String LF "        <section class=" +:+ String QUOTE "secao" +:+ String QUOTE " data-id="
    +:+ String QUOTE id +:+ String QUOTE ">"
    +:+ String LF "            <h2>" +:+ titulo +:+ "</h2>"
    +:+ String LF "            <div class=" +:+ String QUOTE "secao-content" +:+ String QUOTE ">"
    +:+ String LF "                " +:+ camposHTML
    +:+ String LF "            </div>"
    +:+ String LF "        </section>"
    +:+ String LF "    ".

Fixpoint join (l : list string) : string :=
  match l with
  | [] => ""
  | s :: rest => s +:+ join rest
  end.

Definition renderSecao (secao : Secao Field) : Outcome string :=
  let m := meta secao in
  let sc := schema secao in
  if supported (type sc)
  then match fields sc with
       | None =>
           Throw (TypeError "Cannot read properties of undefined (reading 'map')")
       | Some fs =>
           Return (secao_html (id m) (titulo m)
                     (join (imap (fun i f => renderField f i fs) fs)))
       end
  else Return (secao_html (id m) (titulo m) "").

(** [l.map(renderSecao)]: the first exception ends it. *)
Fixpoint map_renderSecao (l : list (Secao Field)) : Outcome (list string) :=
  match l with
  | [] => Return []
  | s :: rest =>
      match renderSecao s with
      | Throw e => Throw e
      | Return h =>
          match map_renderSecao rest with
          | Throw e => Throw e
          | Return hs => Return (h :: hs)
          end
      end
  end.

(** What [renderFormulario] reads and writes: the global list of sections,
    the markup of [app], the document. *)
Record World := {
  FORMULARIO_COMPLETO : list (Secao Field);
  app_innerHTML : string;
  document : Node
}.

Definition renderFormulario (w : World) : Outcome unit * World :=
  let secoesOrdenadas := sort (FORMULARIO_COMPLETO w) in
  let w := {| FORMULARIO_COMPLETO := secoesOrdenadas;
              app_innerHTML := app_innerHTML w;
              document := document w |} in
  match map_renderSecao secoesOrdenadas with
  | Throw e => (Throw e, w)
  | Return htmls =>
      let html := join htmls in
      (Return tt,
       {| FORMULARIO_COMPLETO := secoesOrdenadas;
          app_innerHTML := html;
          document := addEventListeners (set_app_innerHTML html (document w)) |})
  end.

End render.

End Script.


(** An operation of a session on the form below the container [r]: an
    event is dispatched to a node of the form; the other operations are
    free. *)
Definition on_form (r : Node) (op : Operation) : Prop :=
  match op with
  | op_dispatch e => ∃ path, path ≠ [] ∧ node_at path r = Some (target e)
  | _ => True
  end.

(** The text control the unit of [item_x] holds. *)
Definition control_x : Node :=
  addEventListener ev_input (h_model_key "x") (input_of "text" item_x).



(** ** Vocabulary for script.js *)

(** Order of two sections by their order key. *)
Definition by_ordenacao {Field : Type} (a b : Script.Secao Field) : Prop :=
  (Script.ordenacao (Script.meta a) ≤ Script.ordenacao (Script.meta b))%Z.

(** The sections of a given order key, in the order of the list. *)
Definition with_ordenacao {Field : Type} (k : Z) (l : list (Script.Secao Field))
  : list (Script.Secao Field) :=
  filter (fun s => Script.ordenacao (Script.meta s) = k) l.

(** Sections for the examples, their fields plain strings rendered as they
    are. *)
Definition secao_of (id : string) (key : Z) (ty : string)
    (fields : option (list string)) : Script.Secao string :=
  {| Script.meta := {| Script.id := id; Script.titulo := id; Script.ordenacao := key |};
     Script.schema := {| Script.type := ty; Script.fields := fields |} |}.

Definition world_of (l : list (Script.Secao string)) : @Script.World string :=
  {| Script.FORMULARIO_COMPLETO := l;
     Script.app_innerHTML := "";
     Script.document := Element "html" [] [] [] |}.

Definition renderField_text (f : string) (i : nat) (fs : list string) : string := f.

Definition set_app_text (html : string) (d : Node) : Node :=
  set_innerHTML [Text html] d.

(** A radio button in a group, a slider with its display, a radio button
    outside any group and an input without a type, in one document. *)
Definition document_controls : Node :=
  Element "html" [] []
    [Element "div" [("class", "campo radio-group")] []
       [Element "label" [] []
          [Element "input" [("type", "radio"); ("name", "dor"); ("value", "Sim")] [] []]];
     Element "div" [] []
       [Element "input" [("type", "range"); ("id", "escala")] [] [];
        Element "span" [("class", "scale-value")] [] []];
     Element "div" [] []
       [Element "input" [("type", "radio"); ("name", "solto"); ("value", "a")] [] [];
        Element "input" [("id", "sem_tipo")] [] []]].


(** An environment with the templating libraries and without [saveAs]. *)
Definition env_no_saveAs : DocEnv :=
  {| PizZip_defined := true;
     docxtemplater_defined := true;
     saveAs_defined := false;
     fetch_template := Return "PK";
     docx_generate := fun _ _ => Return "PK";
     now := {| UTCFullYear := 2026; UTCMonth := 10; UTCDate := 2; UTCHours := 19;
               UTCMinutes := 5; UTCSeconds := 9; UTCMilliseconds := 42 |} |}.


(** A descriptor that is neither a group nor of a type with a renderer. *)
Definition is_unknown (item : Item) : bool :=
  negb (is_group item)
  && match renderer_for (type item) with Some _ => false | None => true end.

(** * Properties *)

(** ** Proof tools *)

Ltac decide_all :=
  cbn; repeat (first [case_bool_decide | case_decide]; simplify_eq; try done; cbn).


(** ** Strings *)

Lemma string_length_app (s t : string) :
  String.length (s +:+ t) = String.length s + String.length t.
Proof. induction s as [|c s IH]; simpl; [done | by rewrite IH]. Qed.


Lemma string_app_nil_r (s : string) : s +:+ "" = s.
Proof.
  induction s as [|c s IH]; [done |].
  change (String c s +:+ "") with (String c (s +:+ "")). by rewrite IH.
Qed.

Lemma string_app_assoc (a b c : string) : (a +:+ b) +:+ c = a +:+ (b +:+ c).
Proof.
  induction a as [|x a IH]; [done |].
  change (String x ((a +:+ b) +:+ c) = String x (a +:+ (b +:+ c))). by rewrite IH.
Qed.

Lemma string_app_cons (x : ascii) (a b : string) :
  String x a +:+ b = String x (a +:+ b).
Proof. reflexivity. Qed.

Lemma string_app_nil_l (a : string) : "" +:+ a = a.
Proof. reflexivity. Qed.

(** ** Field bindings of renderer.js *)



Lemma renderItem_unit (item : Item) (sec : SectionRef) (p : Page) render wrap :
  renderer_for (type item) = Some render →
  render item = Return wrap →
  renderItem item sec p = (Return (Some wrap), (section_appendChild sec wrap p).2).
Proof.
  intros Hr Hw. unfold renderItem. rewrite Hr.
  unfold bind, lift, ret. by rewrite Hw.
Qed.

Lemma renderItem_throw (item : Item) (sec : SectionRef) (p : Page) render e :
  renderer_for (type item) = Some render →
  render item = Throw e →
  renderItem item sec p = (Throw e, p).
Proof.
  intros Hr Hw. unfold renderItem. rewrite Hr.
  unfold bind, lift, ret. by rewrite Hw.
Qed.

Lemma renderItem_unknown (item : Item) (sec : SectionRef) (p : Page) :
  renderer_for (type item) = None →
  renderItem item sec p
  = (Return None,
     {| root := root p; perguntas := perguntas p;
        console := console p ++ [console_warn "Tipo desconhecido:" (type item)] |}).
Proof. intros Hr. unfold renderItem. by rewrite Hr. Qed.


Lemma writes_only_insert (key v : string) (m : Model) :
  writes_only key v m (<[key := v]> m).
Proof.
  split; [apply lookup_insert_eq |]. intros k Hk. by apply lookup_insert_ne.
Qed.

(** ** Listeners of script.js *)

Lemma same_element_trans n1 n2 n3 :
  same_element n1 n2 → same_element n2 n3 → same_element n1 n3.
Proof. unfold same_element. congruence. Qed.

Lemma same_element_matches s n n' :
  same_element n n' → matches s n = matches s n'.
Proof.
  unfold same_element.
  destruct n as [t a l c|d], n' as [t' a' l' c'|d']; simpl; intros H;
    simplify_eq; done.
Qed.

Lemma same_element_reflected a n n' :
  same_element n n' → reflected a n = reflected a n'.
Proof.
  unfold same_element.
  destruct n as [t x l c|d], n' as [t' x' l' c'|d']; simpl; intros H;
    simplify_eq; done.
Qed.

Lemma same_element_addEventListener ev h n :
  same_element n (addEventListener ev h n).
Proof. by destruct n. Qed.

Lemma same_element_update_where test f n :
  same_element n (update_where test f n).
Proof. by destruct n. Qed.

Lemma same_element_update_within c sel f b n :
  same_element n (update_within c sel f b n).
Proof. by destruct n. Qed.

Lemma listenersOf_update_where test f n :
  listenersOf (update_where test f n) = listenersOf n.
Proof. by destruct n. Qed.

Lemma listenersOf_update_within c sel f b n :
  listenersOf (update_within c sel f b n) = listenersOf n.
Proof. by destruct n. Qed.

Lemma node_at_addEventListener ev h path n :
  path ≠ [] → node_at path (addEventListener ev h n) = node_at path n.
Proof. destruct path; [done |]. by destruct n. Qed.

(** The node at a path after [update_where]: its own update. *)
Lemma node_at_update_where test ev h path doc c :
  path ≠ [] → node_at path doc = Some c →
  node_at path (update_where test (addEventListener ev h) doc)
  = Some (let c' := update_where test (addEventListener ev h) c in
          if test c then addEventListener ev h c' else c').
Proof.
  revert doc. induction path as [|i path IH]; [done |].
  intros doc _ Hc. destruct doc as [t a l kids|d]; [|done].
  simpl in *. rewrite list_lookup_fmap.
  destruct (kids !! i) as [k|] eqn:Hk; [|done]. simpl.
  destruct path as [|j path].
  - simpl in *. by simplify_eq.
  - destruct (test k).
    + rewrite node_at_addEventListener by done. by apply IH.
    + by apply IH.
Qed.


Lemma scalar_control_not_radio_range c :
  is_scalar_control c = true →
  matches (sel_tag_attr "input" "type" "radio") c = false ∧
  matches (sel_tag_attr "input" "type" "range") c = false.
Proof.
  destruct c as [t a l kids|d]; [|done].
  unfold is_scalar_control, matches, getAttribute. simpl.
  intros H. split; decide_all; simplify_eq.
Qed.


(** ** What a field writes *)





(** ** Document generation and the session *)

(** C7: with a templating dependency absent, document generation checks
    first, reports through one blocking notification, fetches nothing and
    leaves the model as it is. *)
Theorem C7_missing_dependency_no_fetch (env : DocEnv) (m : Model) :
  PizZip_defined env = false ∨ docxtemplater_defined env = false →
  gerarDoc env m
  = (m, [fx_alert "Bibliotecas PizZip/docxtemplater não carregadas!"]) ∧
  (∀ url, fx_fetch url ∉ (gerarDoc env m).2) ∧
  (gerarDoc env m).1 = m.
Proof.
  intros H.
  assert (gerarDoc env m
          = (m, [fx_alert "Bibliotecas PizZip/docxtemplater não carregadas!"])) as ->.
  { unfold gerarDoc. destruct H as [-> | ->]; [done |].
    by rewrite orb_true_r. }
  split; [done |]. split; [|done].
  intros url Hin. simpl in Hin.
  apply elem_of_cons in Hin as [Hin | Hin]; [done |]. by apply elem_of_nil in Hin.
Qed.

Lemma C7_witness :
  gerarDoc env_no_libs model
  = (model, [fx_alert "Bibliotecas PizZip/docxtemplater não carregadas!"]) ∧
  (∀ url, fx_fetch url ∉ (gerarDoc env_no_libs model).2) ∧
  (gerarDoc env_no_libs model).1 = model.
Proof.
  apply (C7_missing_dependency_no_fetch env_no_libs model).
  left. reflexivity.
Defined.

Lemma run_handler_writes (h : Handler) (e : Event) (m : Model) :
  (run_handler h e m).1 = m ∨ ∃ k, (run_handler h e m).1 = <[k := value e]> m.
Proof. destruct h; simpl; eauto. Qed.

Lemma run_handler_dom (h : Handler) (e : Event) (m : Model) :
  dom m ⊆ dom (run_handler h e m).1.
Proof.
  destruct (run_handler_writes h e m) as [-> | [k ->]]; [done |].
  rewrite dom_insert_L. set_solver.
Qed.

Lemma dispatch_dom_from (e : Event) (ls : list Listener) (st : Model * list Effect) :
  dom st.1
  ⊆ dom (foldl (fun st l =>
                  if decide (on_event l = ev_type e)
                  then let r := run_handler (handler l) e st.1 in (r.1, st.2 ++ r.2)
                  else st) st ls).1.
Proof.
  revert st. induction ls as [|l ls IH]; intros st; simpl; [done |].
  etrans; [|apply IH]. case_decide; [|done]. simpl. apply run_handler_dom.
Qed.

Lemma step_dom (op : Operation) (m : Model) : dom m ⊆ dom (step op m).1.
Proof.
  destruct op as [e|db|keys|env]; simpl.
  - apply (dispatch_dom_from e _ (m, [])).
  - unfold btnSalvar_save. by destruct (db m).
  - done.
  - unfold gerarDoc. repeat case_match; done.
Qed.

Lemma run_app (ops ops' : list Operation) (m : Model) :
  run (ops ++ ops') m = run ops' (run ops m).
Proof. unfold run. by rewrite foldl_app. Qed.

Lemma run_dom (ops : list Operation) (m : Model) : dom m ⊆ dom (run ops m).
Proof.
  revert m. induction ops as [|op ops IH]; intros m; [done |].
  simpl. etrans; [apply (step_dom op) |]. apply IH.
Qed.

(** C8: no entry of the model is ever deleted.  A listener leaves the model
    as it is or writes one key; saving, exporting and generating a document
    leave it as it is; every operation keeps the keys there are, so from the
    empty model of startup the key set only grows. *)
Theorem C8_model_keys_grow :
  (∀ (h : Handler) (e : Event) (m : Model),
     (run_handler h e m).1 = m ∨ ∃ k, (run_handler h e m).1 = <[k := value e]> m) ∧
  (∀ db keys env (m : Model),
     (step (op_save db) m).1 = m ∧ (step (op_export keys) m).1 = m ∧
     (step (op_gerarDoc env) m).1 = m) ∧
  (∀ (op : Operation) (m : Model), dom m ⊆ dom (step op m).1) ∧
  (∀ (ops ops' : list Operation),
     dom (run ops model) ⊆ dom (run (ops ++ ops') model)).
Proof.
  split; [apply run_handler_writes |]. split.
  { intros db keys env m. simpl. split; [|split; [done |]].
    - unfold btnSalvar_save. by destruct (db m).
    - unfold gerarDoc. repeat case_match; done. }
  split; [apply step_dom |].
  intros ops ops'. rewrite run_app. apply run_dom.
Qed.

(** ** The name of the generated document *)

Lemma digit_char_mod10 (n : Z) :
  is_digit (digit_char (n mod 10)) = true ∧
  Ascii.eqb (digit_char (n mod 10)) "T" = false.
Proof.
  assert (0 ≤ n mod 10 < 10)%Z as H by (apply Z.mod_pos_bound; lia).
  assert (n mod 10 = 0 ∨ n mod 10 = 1 ∨ n mod 10 = 2 ∨ n mod 10 = 3 ∨ n mod 10 = 4
          ∨ n mod 10 = 5 ∨ n mod 10 = 6 ∨ n mod 10 = 7 ∨ n mod 10 = 8
          ∨ n mod 10 = 9)%Z as Hc by lia.
  repeat (destruct Hc as [-> | Hc]; [by vm_compute |]). rewrite Hc. by vm_compute.
Qed.

Lemma digits_2 (n : Z) :
  digits 2 n
  = String (digit_char ((n / 10) mod 10)) (String (digit_char (n mod 10)) "").
Proof. reflexivity. Qed.

Lemma digits_4 (n : Z) :
  digits 4 n
  = String (digit_char ((n / 10 / 10 / 10) mod 10))
      (String (digit_char ((n / 10 / 10) mod 10))
         (String (digit_char ((n / 10) mod 10))
            (String (digit_char (n mod 10)) ""))).
Proof. reflexivity. Qed.

(** The date part of the time stamp, for a year of four digits. *)
Lemma split_head_toISOString (now : Date) :
  (0 ≤ UTCFullYear now ≤ 9999)%Z →
  split_head "T" (toISOString now)
  = digits 4 (UTCFullYear now) +:+ "-" +:+ digits 2 (UTCMonth now + 1)
      +:+ "-" +:+ digits 2 (UTCDate now).
Proof.
  intros Hy. unfold toISOString.
  assert ((0 <=? UTCFullYear now)%Z && (UTCFullYear now <=? 9999)%Z = true) as ->.
  { apply andb_true_intro. split; [apply Z.leb_le | apply Z.leb_le]; lia. }
  rewrite digits_4, !digits_2.
  generalize (digits 2 (UTCHours now) +:+ ":" +:+ digits 2 (UTCMinutes now) +:+ ":"
                +:+ digits 2 (UTCSeconds now) +:+ "."
                +:+ digits 3 (UTCMilliseconds now) +:+ "Z").
  intros rest.
  repeat match goal with
         | |- context [digit_char (?n mod 10)] =>
             let c := fresh "c" in
             let Hc := fresh "Hc" in
             destruct (digit_char_mod10 n) as [_ Hc];
             set (c := digit_char (n mod 10)) in *; clearbody c
         end.
  cbv [String.append split_head].
  repeat match goal with H : Ascii.eqb _ _ = false |- _ => rewrite H; clear H end.
  reflexivity.
Qed.

Lemma is_yyyy_mm_dd_digits (y mo d : Z) :
  is_yyyy_mm_dd (digits 4 y +:+ "-" +:+ digits 2 mo +:+ "-" +:+ digits 2 d) = true.
Proof.
  rewrite digits_4, !digits_2.
  repeat match goal with
         | |- context [digit_char (?n mod 10)] =>
             let c := fresh "c" in
             let Hc := fresh "Hc" in
             destruct (digit_char_mod10 n) as [Hc _];
             set (c := digit_char (n mod 10)) in *; clearbody c
         end.
  cbv [String.append is_yyyy_mm_dd].
  repeat match goal with H : is_digit _ = true |- _ => rewrite H; clear H end.
  reflexivity.
Qed.

(** C9: the name of the generated document is made of the patient name and
    the current date as [YYYY-MM-DD], between [Registro_] and [.docx]; a
    missing or empty name is replaced by [Paciente]. *)
Theorem C9_document_name (m : Model) (env : DocEnv) :
  (0 ≤ UTCFullYear (now env) ≤ 9999)%Z →
  ∃ date,
    date = digits 4 (UTCFullYear (now env)) +:+ "-"
             +:+ digits 2 (UTCMonth (now env) + 1) +:+ "-"
             +:+ digits 2 (UTCDate (now env)) ∧
    is_yyyy_mm_dd date = true ∧
    (∀ nome, m !! "ident_nome" = Some nome → nome ≠ "" →
       docx_filename m (now env)
       = "Registro_" +:+ nome +:+ "_" +:+ date +:+ ".docx") ∧
    (m !! "ident_nome" = None ∨ m !! "ident_nome" = Some "" →
       docx_filename m (now env)
       = "Registro_" +:+ "Paciente" +:+ "_" +:+ date +:+ ".docx") ∧
    (∀ content out,
       PizZip_defined env = true → docxtemplater_defined env = true →
       saveAs_defined env = true → fetch_template env = Return content →
       docx_generate env content m = Return out →
       gerarDoc env m
       = (m, [fx_fetch "template.docx";
              fx_saveAs out (docx_filename m (now env));
              fx_alert "Documento gerado com sucesso!"])).
Proof.
  intros Hy. eexists. split; [reflexivity |].
  split; [apply is_yyyy_mm_dd_digits |].
  split; [|split].
  - intros nome Hn Hne. unfold docx_filename.
    rewrite split_head_toISOString, Hn by done. simpl. by rewrite decide_False.
  - intros Hn. unfold docx_filename. rewrite split_head_toISOString by done.
    by destruct Hn as [-> | ->].
  - intros content out H1 H2 H3 H4 H5. unfold gerarDoc.
    by rewrite H1, H2, H3, H4, H5.
Qed.

Lemma C9_witness :
  docx_filename model_maria (now env_ready) = "Registro_Maria_2026-11-02.docx" ∧
  docx_filename model (now env_ready) = "Registro_Paciente_2026-11-02.docx" ∧
  gerarDoc env_ready model_maria
  = (model_maria,
     [fx_fetch "template.docx";
      fx_saveAs "PK" "Registro_Maria_2026-11-02.docx";
      fx_alert "Documento gerado com sucesso!"]).
Proof.
  destruct (C9_document_name model_maria env_ready) as (d & Hd & _ & Hn & _ & Hg).
  { simpl. lia. }
  destruct (C9_document_name model env_ready) as (d' & Hd' & _ & _ & He & _).
  { simpl. lia. }
  split; [|split].
  - rewrite (Hn "Maria"); [rewrite Hd; reflexivity | reflexivity | discriminate].
  - rewrite He; [rewrite Hd'; reflexivity | left; reflexivity].
  - rewrite (Hg "PK" "PK") by reflexivity.
    rewrite (Hn "Maria"); [rewrite Hd; reflexivity | reflexivity | discriminate].
Defined.

(** ** The assembler of the specification *)

Lemma append_to_last_snoc us before label content :
  append_to_last us (before ++ [(label, content)])
  = before ++ [(label, content ++ us)].
Proof.
  unfold append_to_last. by rewrite reverse_snoc, reverse_involutive.
Qed.

Section assembler_facts.
Context (dflt : string).

Lemma open_default_snoc secs :
  ∃ before label content, open_default dflt secs = before ++ [(label, content)].
Proof.
  destruct secs as [|s secs] using rev_ind.
  - by exists [], dflt, [].
  - destruct s as [label content]. exists secs, label, content.
    unfold open_default.
    destruct (secs ++ [(label, content)]) eqn:E; [by destruct secs | done].
Qed.






Lemma assembler_units secs items :
  concat (foldl (assembler_step dflt) secs items).*2
  = concat secs.*2 ++ flat_map units_of items.
Proof.
  revert secs. induction items as [|item items IH]; intros secs; simpl.
  - by rewrite app_nil_r.
  - rewrite IH. rewrite app_assoc. f_equal.
    unfold assembler_step. destruct (is_group item) eqn:Hg.
    + rewrite fmap_app, concat_app. simpl.
      assert (units_of item = []) as ->; [|done].
      unfold units_of. apply bool_decide_eq_true in Hg. by rewrite Hg.
    + fold (open_default dflt secs).
      destruct (open_default_snoc secs) as (before & label & content & Hsn).
      rewrite Hsn, append_to_last_snoc.
      assert (concat secs.*2 = concat (open_default dflt secs).*2) as ->.
      { destruct secs; [done | done]. }
      rewrite Hsn, !fmap_app, !concat_app. simpl.
      by rewrite !app_nil_r, app_assoc.
Qed.

Lemma assembler_step_throw secs item :
  renders item = false → assembler_step dflt secs item = open_default dflt secs.
Proof.
  intros Hr. unfold renders in Hr. unfold assembler_step, is_group, units_of.
  destruct (renderer_for (type item)) as [render|] eqn:Hrf; [|done].
  destruct (render item); [done |].
  rewrite bool_decide_eq_false_2 by (intros Hty; by rewrite Hty in Hrf).
  fold (open_default dflt secs).
  destruct (open_default_snoc secs) as (before & label & content & ->).
  by rewrite append_to_last_snoc, app_nil_r.
Qed.

Lemma assembler_step_nonempty secs item : assembler_step dflt secs item ≠ [].
Proof.
  unfold assembler_step. destruct (is_group item).
  - by destruct secs.
  - fold (open_default dflt secs).
    destruct (open_default_snoc secs) as (before & label & content & ->).
    rewrite append_to_last_snoc. by destruct before.
Qed.

Lemma assembler_nonempty item items secs :
  foldl (assembler_step dflt) secs (item :: items) ≠ [].
Proof.
  revert item secs. induction items as [|d items IH]; intros item secs.
  - apply assembler_step_nonempty.
  - simpl. apply (IH d).
Qed.

(** A descriptor without units leaves open sections as they are. *)
Lemma assembler_step_skip s secs item :
  is_group item = false → units_of item = [] →
  assembler_step dflt (s :: secs) item = s :: secs.
Proof.
  intros Hg Hu. unfold assembler_step. rewrite Hg, Hu.
  destruct (open_default_snoc (s :: secs)) as (before & label & content & Hsn).
  simpl in Hsn. rewrite Hsn, append_to_last_snoc. by rewrite app_nil_r.
Qed.

End assembler_facts.

(** Every schema is a run of leading descriptors followed by blocks. *)
Lemma schema_blocks (schema : list Item) :
  ∃ lead blocks,
    schema = lead ++ flatten_blocks blocks ∧
    Forall (fun i => is_group i = false) lead ∧ Forall block_ok blocks.
Proof.
  induction schema as [|d schema (lead & blocks & -> & Hl & Hb)].
  - by exists [], [].
  - destruct (is_group d) eqn:Hg.
    + exists [], ((d, lead) :: blocks). repeat split; [done | by constructor].
    + exists (d :: lead), blocks. repeat split; [by constructor | done].
Qed.

Lemma schema_renders_or_throws (schema : list Item) :
  (Forall renders schema ∧ reached schema = schema) ∨
  ∃ pre item post,
    schema = pre ++ item :: post ∧ Forall renders pre ∧ renders item = false ∧
    reached schema = pre ++ [item].
Proof.
  induction schema as [|d schema IH]; [by left |].
  cbn [reached]. destruct (renders d) eqn:Hd.
  - destruct IH as [[Hall Hr] | (pre & item & post & -> & Hpre & Hitem & Hr)].
    + left. split; [constructor; [by rewrite Hd | done] | by rewrite Hr].
    + right. exists (d :: pre), item, post.
      split; [done |]. split; [constructor; [by rewrite Hd | done] |].
      split; [done | by rewrite Hr].
  - right. by exists [], d, schema.
Qed.

(** ** Assembly: [renderFormulario] against the assembler *)

Lemma length_section_nodes secs : length (section_nodes secs) = 2 * length secs.
Proof.
  induction secs as [|s secs IH]; [done |].
  unfold section_nodes in *. simpl. rewrite IH. lia.
Qed.

Lemma section_nodes_snoc secs s :
  section_nodes (secs ++ [s])
  = section_nodes secs ++ [section_title s.1; section_content s.2].
Proof. unfold section_nodes. rewrite flat_map_app. simpl. by rewrite ?app_nil_r. Qed.

Lemma textContent_section_title label : textContent (section_title label) = label.
Proof.
  unfold section_title, el, opts_cls. decide_all. apply string_app_nil_r.
Qed.

Lemma sections_of_section_nodes secs : sections_of (section_nodes secs) = secs.
Proof.
  induction secs as [|[label units] secs IH]; [done |].
  change (section_nodes ((label, units) :: secs))
    with (section_title label :: section_content units :: section_nodes secs).
  cbn [sections_of]. rewrite IH, textContent_section_title. done.
Qed.

Lemma sections_on_page p secs : on_page p secs → sections p = secs.
Proof.
  intros (t & a & l & Hr). unfold sections. rewrite Hr. simpl.
  apply sections_of_section_nodes.
Qed.

Lemma section_content_el : el "div" (opts_cls "section-content") "" = section_content [].
Proof. unfold el, opts_cls, section_content. decide_all. Qed.

Lemma createSection_on_page label p secs :
  on_page p secs →
  ∃ p', createSection label p = (Return (2 * length secs + 1), p') ∧
        on_page p' (secs ++ [(label, [])]) ∧
        perguntas p' = perguntas p ∧ console p' = console p.
Proof.
  intros (t & a & l & Hr). destruct p as [r pg c]. simpl in Hr. subst r.
  unfold createSection. rewrite section_content_el.
  fold (section_title label).
  unfold bind, root_appendChild, ret. simpl.
  eexists. split.
  - f_equal. f_equal. rewrite length_app, length_section_nodes. simpl. lia.
  - split; [|done]. exists t, a, l. simpl. f_equal. f_equal.
    rewrite section_nodes_snoc, <- app_assoc. done.
Qed.

Lemma section_appendChild_last u p before label content :
  on_page p (before ++ [(label, content)]) →
  ∃ p', section_appendChild (2 * length before + 1) u p = (Return u, p') ∧
        on_page p' (before ++ [(label, content ++ [u])]) ∧
        perguntas p' = perguntas p ∧ console p' = console p.
Proof.
  intros (t & a & l & Hr). destruct p as [r pg c]. simpl in Hr. subst r.
  unfold section_appendChild. simpl. eexists. split; [reflexivity |].
  split; [|done]. exists t, a, l. simpl. f_equal. f_equal.
  rewrite !section_nodes_snoc.
  rewrite alter_app_r_alt by (rewrite length_section_nodes; lia).
  rewrite length_section_nodes. f_equal.
  match goal with |- alter _ ?i _ = _ => replace i with 1 by lia end.
  done.
Qed.

Lemma current_ref_snoc before s : current_ref (before ++ [s]) = Some (2 * length before + 1).
Proof.
  unfold current_ref. destruct (before ++ [s]) eqn:E.
  - by destruct before.
  - rewrite <- E, length_app. simpl. f_equal. lia.
Qed.

(** A descriptor that is not a group first makes sure a section is open. *)
Lemma ensure_section_on_page p secs :
  on_page p secs →
  ∃ p' s,
    match current_ref secs with
    | Some s => ret s
    | None => createSection "Geral"
    end p = (Return s, p') ∧
    on_page p' (open_default "Geral" secs) ∧
    current_ref (open_default "Geral" secs) = Some s ∧
    perguntas p' = perguntas p ∧ console p' = console p.
Proof.
  intros Hp. destruct secs as [|s0 secs].
  - destruct (createSection_on_page "Geral" p [] Hp) as (p' & Hc & Hp' & Hpg & Hcs).
    exists p', 1. simpl in *. done.
  - exists p, (2 * length (s0 :: secs) - 1). done.
Qed.

Lemma each_pergunta_group item p secs :
  is_group item = true → on_page p secs →
  ∃ p', each_pergunta item (current_ref secs) p
        = (Return (current_ref (assembler_step "Geral" secs item)), p') ∧
        on_page p' (assembler_step "Geral" secs item) ∧
        perguntas p' = perguntas p ∧
        console p' = console p ++ warnings_of item.
Proof.
  intros Hg Hp. unfold assembler_step, warnings_of. rewrite Hg.
  unfold each_pergunta. apply bool_decide_eq_true in Hg. rewrite decide_True by done.
  destruct (createSection_on_page (text item) p secs Hp) as (p' & Hc & Hp' & Hpg & Hcs).
  exists p'. unfold bind. rewrite Hc. unfold ret.
  rewrite current_ref_snoc, app_nil_r. done.
Qed.

Lemma each_pergunta_item item p secs :
  is_group item = false → on_page p secs →
  ∃ p1 s,
    on_page p1 (open_default "Geral" secs) ∧
    current_ref (open_default "Geral" secs) = Some s ∧
    perguntas p1 = perguntas p ∧ console p1 = console p ∧
    each_pergunta item (current_ref secs) p
    = match renderItem item s p1 with
      | (Return _, p') => (Return (Some s), p')
      | (Throw e, p') => (Throw e, p')
      end.
Proof.
  intros Hg Hp. apply bool_decide_eq_false in Hg.
  destruct (ensure_section_on_page p secs Hp) as (p1 & s & He & Hp1 & Hs & Hpg & Hcs).
  exists p1, s. do 4 (split; [done |]).
  unfold each_pergunta. rewrite decide_False by done.
  unfold bind at 1. rewrite He. unfold bind, ret.
  by destruct (renderItem item s p1) as [[?|?] ?].
Qed.

Lemma each_pergunta_ok item p secs :
  renders item → on_page p secs →
  ∃ p', each_pergunta item (current_ref secs) p
        = (Return (current_ref (assembler_step "Geral" secs item)), p') ∧
        on_page p' (assembler_step "Geral" secs item) ∧
        perguntas p' = perguntas p ∧
        console p' = console p ++ warnings_of item.
Proof.
  intros Hr Hp. destruct (is_group item) eqn:Hg; [by apply each_pergunta_group |].
  destruct (each_pergunta_item item p secs Hg Hp)
    as (p1 & s & Hp1 & Hs & Hpg & Hcs & ->).
  unfold assembler_step, warnings_of, units_of. rewrite Hg.
  fold (open_default "Geral" secs).
  destruct (open_default_snoc "Geral" secs) as (before & label & content & Hsn).
  rewrite Hsn in *. rewrite current_ref_snoc in Hs.
  set (idx := 2 * length before + 1) in *. injection Hs as <-.
  unfold renders in Hr.
  destruct (renderer_for (type item)) as [render|] eqn:Hrf.
  - destruct (render item) as [u|e] eqn:Hu; [|done].
    rewrite (renderItem_unit _ _ _ _ _ Hrf Hu).
    destruct (section_appendChild_last u p1 before label content Hp1)
      as (p' & Ha & Hp' & Hpg' & Hcs').
    fold idx in Ha. rewrite Ha. simpl. exists p'.
    rewrite append_to_last_snoc, current_ref_snoc, app_nil_r.
    repeat split; [done | congruence | congruence].
  - rewrite (renderItem_unknown _ _ _ Hrf). eexists.
    rewrite append_to_last_snoc, current_ref_snoc, app_nil_r.
    repeat split; simpl; [| done | by rewrite Hcs].
    destruct Hp1 as (t & a & l & Hroot). by exists t, a, l.
Qed.

Lemma each_pergunta_throw item p secs :
  renders item = false → on_page p secs →
  ∃ e p', each_pergunta item (current_ref secs) p = (Throw e, p') ∧
          on_page p' (open_default "Geral" secs) ∧
          (∀ render, renderer_for (type item) = Some render → render item = Throw e) ∧
          perguntas p' = perguntas p ∧ console p' = console p.
Proof.
  intros Hr Hp. unfold renders in Hr.
  destruct (renderer_for (type item)) as [render|] eqn:Hrf; [|done].
  destruct (render item) as [u|e] eqn:Hu; [done |].
  assert (is_group item = false) as Hg.
  { apply bool_decide_eq_false. intros Hty. rewrite Hty in Hrf. done. }
  destruct (each_pergunta_item item p secs Hg Hp)
    as (p1 & s & Hp1 & Hs & Hpg & Hcs & ->).
  rewrite (renderItem_throw _ _ _ _ _ Hrf Hu).
  exists e, p1. repeat split; try done. intros r Hr'. by simplify_eq.
Qed.

(** The loop over descriptors that all render follows the assembler. *)
Lemma forEach_ok items p secs :
  Forall renders items → on_page p secs →
  ∃ p', forEach items (current_ref secs) p
        = (Return (current_ref (foldl (assembler_step "Geral") secs items)), p') ∧
        on_page p' (foldl (assembler_step "Geral") secs items) ∧
        perguntas p' = perguntas p ∧
        console p' = console p ++ flat_map warnings_of items.
Proof.
  intros Hall. revert p secs.
  induction Hall as [|item items Hr Hall IH]; intros p secs Hp.
  - exists p. simpl. by rewrite app_nil_r.
  - destruct (each_pergunta_ok item p secs Hr Hp) as (p1 & He & Hp1 & Hpg & Hcs).
    destruct (IH p1 _ Hp1) as (p' & Hf & Hp' & Hpg' & Hcs').
    exists p'. simpl. unfold bind. rewrite He, Hf.
    repeat split; [done | congruence |].
    by rewrite Hcs', Hcs, <- app_assoc.
Qed.

(** The loop stops at the first descriptor that throws: the page is as the
    descriptors before it left it, with a section open. *)
Lemma forEach_throw pre item post p secs :
  Forall renders pre → renders item = false → on_page p secs →
  ∃ e p', forEach (pre ++ item :: post) (current_ref secs) p = (Throw e, p') ∧
          on_page p' (open_default "Geral" (foldl (assembler_step "Geral") secs pre)) ∧
          (∀ render, renderer_for (type item) = Some render → render item = Throw e) ∧
          console p' = console p ++ flat_map warnings_of pre.
Proof.
  intros Hall Hr. revert p secs.
  induction Hall as [|d pre Hd Hall IH]; intros p secs Hp.
  - destruct (each_pergunta_throw item p secs Hr Hp) as (e & p' & He & Hp' & Hth & _ & Hcs).
    exists e, p'. simpl. unfold bind. rewrite He.
    repeat split; [done | done |]. by rewrite app_nil_r.
  - destruct (each_pergunta_ok d p secs Hd Hp) as (p1 & He & Hp1 & Hpg & Hcs).
    destruct (IH p1 _ Hp1) as (e & p' & Hf & Hp' & Hth & Hcs').
    exists e, p'. simpl. unfold bind. rewrite He, Hf.
    repeat split; [done | done |].
    by rewrite Hcs', Hcs, <- app_assoc.
Qed.

Lemma on_page0 schema :
  on_page {| root := root page0; perguntas := schema; console := console page0 |} [].
Proof. by eexists _, _, _. Qed.

Lemma assemble_forEach schema :
  assemble schema
  = match forEach schema None
            {| root := root page0; perguntas := schema; console := console page0 |} with
    | (Return _, p') => (Return tt, p')
    | (Throw e, p') => (Throw e, p')
    end.
Proof.
  unfold assemble, renderFormulario, carregarPerguntas. simpl.
  unfold bind, lift, ret. simpl.
  by destruct (forEach schema None _) as [[?|?] ?].
Qed.

(** Refinement: on a schema whose descriptors all render, assembly returns
    and the page shows the sections of the specification's assembler. *)
Lemma assemble_ok schema :
  Forall renders schema →
  ∃ p, assemble schema = (Return tt, p) ∧
       sections p = assembler "Geral" schema ∧
       perguntas p = schema ∧
       console p = flat_map warnings_of schema.
Proof.
  intros Hall.
  destruct (forEach_ok schema _ [] Hall (on_page0 schema)) as (p & Hf & Hp & Hpg & Hcs).
  exists p. rewrite assemble_forEach. simpl current_ref in Hf. rewrite Hf.
  split; [done |]. split; [by apply sections_on_page |]. done.
Qed.

Lemma assemble_throw pre item post :
  Forall renders pre → renders item = false →
  ∃ e p, assemble (pre ++ item :: post) = (Throw e, p) ∧
         sections p = open_default "Geral" (assembler "Geral" pre) ∧
         (∀ render, renderer_for (type item) = Some render → render item = Throw e) ∧
         console p = flat_map warnings_of pre.
Proof.
  intros Hall Hr.
  destruct (forEach_throw pre item post _ [] Hall Hr (on_page0 (pre ++ item :: post)))
    as (e & p & Hf & Hp & Hth & Hcs).
  exists e, p. rewrite assemble_forEach. simpl current_ref in Hf. rewrite Hf.
  split; [done |]. split; [by apply sections_on_page | done].
Qed.







Lemma renderer_for_unknown (ty : string) :
  ty ∉ ["text"; "number"; "date"; "textarea"; "sim_nao"; "radio"; "group"] →
  renderer_for ty = None ∧ ty ≠ "group".
Proof.
  intros H. rewrite !not_elem_of_cons in H.
  destruct H as (? & ? & ? & ? & ? & ? & ? & _).
  unfold renderer_for. by rewrite !decide_False by done.
Qed.

(** C6: a descriptor of an unrecognized type gives no unit: [renderItem]
    returns after logging a warning, with the container as it was and no
    exception, and the descriptors after it are rendered as they would be
    without it. *)
Theorem C6_unknown_type_is_skipped (item : Item) :
  type item ∉ ["text"; "number"; "date"; "textarea"; "sim_nao"; "radio"; "group"] →
  (∀ (sec : SectionRef) (p : Page),
     renderItem item sec p
     = (Return None,
        {| root := root p; perguntas := perguntas p;
           console := console p ++ [console_warn "Tipo desconhecido:" (type item)] |})) ∧
  units_of item = [] ∧
  (∀ pre post : list Item,
     Forall renders pre → Forall renders post →
     ∃ p, assemble (pre ++ item :: post) = (Return tt, p) ∧
          concat (sections p).*2 = flat_map units_of pre ++ flat_map units_of post ∧
          console p
          = flat_map warnings_of pre
            ++ console_warn "Tipo desconhecido:" (type item) :: flat_map warnings_of post ∧
          (pre ≠ [] →
           ∃ p0, assemble (pre ++ post) = (Return tt, p0) ∧ sections p = sections p0)).
Proof.
  intros Hty. destruct (renderer_for_unknown _ Hty) as [Hrf Hng].
  assert (units_of item = []) as Hu by (unfold units_of; by rewrite Hrf).
  assert (is_group item = false) as Hg by (by apply bool_decide_eq_false).
  assert (renders item) as Hr by (unfold renders; by rewrite Hrf).
  split; [intros; by apply renderItem_unknown |]. split; [done |].
  intros pre post Hpre Hpost.
  assert (Forall renders (pre ++ item :: post)) as Hall.
  { apply Forall_app. split; [done | by constructor]. }
  destruct (assemble_ok _ Hall) as (p & Hp & Hs & _ & Hc).
  exists p. split; [done |]. split; [|split].
  - rewrite Hs. unfold assembler. rewrite assembler_units. simpl.
    rewrite flat_map_app. cbn [flat_map]. by rewrite Hu.
  - rewrite Hc, flat_map_app. cbn [flat_map]. f_equal.
    unfold warnings_of at 1. by rewrite Hg, Hrf.
  - intros Hne.
    assert (Forall renders (pre ++ post)) as Hall0 by (by apply Forall_app).
    destruct (assemble_ok _ Hall0) as (p0 & Hp0 & Hs0 & _).
    exists p0. split; [done |]. rewrite Hs, Hs0.
    unfold assembler. rewrite !foldl_app. cbn [foldl].
    destruct pre as [|d pre]; [done |].
    destruct (foldl (assembler_step "Geral") [] (d :: pre)) as [|s secs] eqn:E.
    + by apply assembler_nonempty in E.
    + by rewrite assembler_step_skip.
Qed.

Lemma C6_witness :
  ∃ p ux uz,
    assemble [group_A; item_x; item_q; item_z] = (Return tt, p) ∧
    renderText item_x = Return ux ∧ renderText item_z = Return uz ∧
    concat (sections p).*2 = [ux; uz] ∧
    console p = [console_warn "Tipo desconhecido:" "foo"].
Proof.
  destruct (C6_unknown_type_is_skipped item_q) as (_ & _ & H).
  - simpl. rewrite !not_elem_of_cons. repeat split; try discriminate.
    apply not_elem_of_nil.
  - destruct (H [group_A; item_x] [item_z]) as (p & Hp & Hu & Hc & _).
    + repeat constructor.
    + repeat constructor.
    + eexists p, _, _. split; [exact Hp |].
      split; [reflexivity |]. split; [reflexivity |].
      split; [exact Hu | exact Hc].
Defined.

(** C10: a radio descriptor without [options] makes the render throw, with
    nothing logged and nothing skipped; assembly does not catch it, so it
    ends there and none of the descriptors after it is rendered. *)
Theorem C10_radio_without_options_aborts (item : Item) :
  type item = "radio" → options item = None →
  (∃ msg, renderRadio item = Throw (TypeError msg)) ∧
  (∀ (sec : SectionRef) (p : Page),
     ∃ msg, renderItem item sec p = (Throw (TypeError msg), p)) ∧
  (∀ pre post : list Item,
     Forall renders pre →
     ∃ msg p,
       assemble (pre ++ item :: post) = (Throw (TypeError msg), p) ∧
       sections p = open_default "Geral" (assembler "Geral" pre) ∧
       console p = flat_map warnings_of pre).
Proof.
  intros Hty Hopt.
  assert (renderer_for (type item) = Some renderRadio) as Hrf by (by rewrite Hty).
  assert (∃ msg, renderRadio item = Throw (TypeError msg)) as [msg Hthrow].
  { unfold renderRadio. rewrite Hopt. by eexists. }
  split; [by exists msg |]. split.
  { intros sec p. exists msg. by eapply renderItem_throw. }
  intros pre post Hpre.
  assert (renders item = false) as Hr by (unfold renders; by rewrite Hrf, Hthrow).
  destruct (assemble_throw pre item post Hpre Hr) as (e & p & Hp & Hs & He & Hc).
  exists msg, p. rewrite Hp. specialize (He _ Hrf). rewrite Hthrow in He.
  by simplify_eq.
Qed.

Lemma C10_witness :
  ∃ msg p ux,
    assemble [group_A; item_x; item_r; item_z] = (Throw (TypeError msg), p) ∧
    renderText item_x = Return ux ∧
    sections p = [("A", [ux])] ∧ console p = [].
Proof.
  destruct (C10_radio_without_options_aborts item_r) as (_ & _ & H).
  - reflexivity.
  - reflexivity.
  - destruct (H [group_A; item_x] [item_z]) as (msg & p & Hp & Hs & Hc).
    + repeat constructor.
    + eexists msg, p, _. split; [exact Hp |]. split; [reflexivity |].
      split; [exact Hs | exact Hc].
Defined.

(** ** The JSON export *)

(** Reading back the characters [quote_chars] wrote. *)
Lemma parse_chars_quote_chars (s rest : string) :
  parse_chars (quote_chars s +:+ String QUOTE rest) = Some (s, rest).
Proof.
  induction s as [|c s IH].
  - reflexivity.
  - cbn [quote_chars]. rewrite string_app_assoc.
    set (X := quote_chars s +:+ String QUOTE rest) in *. clearbody X.
    destruct c as [[] [] [] [] [] [] [] []];
      match goal with
      | |- context [quote_char ?c] =>
          let q := eval vm_compute in (quote_char c) in
          change (quote_char c) with q
      end;
      rewrite ?string_app_cons, ?string_app_nil_l;
      cbn -[String.append]; rewrite IH; reflexivity.
Qed.

Lemma parse_string_quote (s rest : string) :
  parse_string (QuoteJSONString s +:+ rest) = Some (s, rest).
Proof.
  unfold QuoteJSONString. rewrite string_app_cons, string_app_assoc.
  cbn -[String.append]. rewrite string_app_cons, string_app_nil_l.
  apply parse_chars_quote_chars.
Qed.

Lemma json_member_quote (kv : string * string) (rest : string) :
  ∃ tail, json_member kv +:+ rest = String QUOTE tail.
Proof. unfold json_member, QuoteJSONString. by eexists. Qed.

Lemma json_members_quote (kv : string * string) (l : list (string * string))
    (rest : string) :
  ∃ tail, json_members (kv :: l) +:+ rest = String QUOTE tail.
Proof.
  destruct l.
  - apply json_member_quote.
  - cbn [json_members]. rewrite string_app_assoc. apply json_member_quote.
Qed.

Lemma skip_ws_keep (c : ascii) (s : string) :
  is_json_ws c = false → skip_ws (String c s) = String c s.
Proof. intros H. cbn [skip_ws]. by rewrite H. Qed.

Lemma skip_ws_drop (c : ascii) (s : string) :
  is_json_ws c = true → skip_ws (String c s) = skip_ws s.
Proof. intros H. cbn [skip_ws]. by rewrite H. Qed.

Lemma expect_head (c : ascii) (s : string) : expect c (String c s) = Some s.
Proof. cbn [expect]. by rewrite Ascii.eqb_refl. Qed.

(** One member read by [parse_members]. *)
Lemma parse_members_member (fuel : nat) (kv : string * string) (rest : string)
    (acc : list (string * string)) :
  parse_members (S fuel) (json_member kv +:+ rest) acc
  = match skip_ws rest with
    | String c s4 =>
        if Ascii.eqb c "," then parse_members fuel (skip_ws s4) (acc ++ [kv])
        else if Ascii.eqb c "}" then Some (acc ++ [kv], s4)
        else None
    | EmptyString => None
    end.
Proof.
  destruct kv as [k v]. unfold json_member. cbn [fst snd parse_members].
  rewrite string_app_assoc, parse_string_quote, string_app_assoc.
  change (": " +:+ QuoteJSONString v +:+ rest)
    with (String ":" (String " " (QuoteJSONString v +:+ rest))).
  pose proof (parse_string_quote v rest) as Hv.
  assert (skip_ws (QuoteJSONString v +:+ rest) = QuoteJSONString v +:+ rest) as Hws
    by reflexivity.
  set (Y := QuoteJSONString v +:+ rest) in *. clearbody Y.
  cbn [mbind option_bind]. rewrite (skip_ws_keep ":") by reflexivity.
  rewrite expect_head.
  cbn [mbind option_bind].
  rewrite (skip_ws_drop " ") by reflexivity. rewrite Hws, Hv. reflexivity.
Qed.

Lemma json_members_cons (kv kv' : string * string) (l : list (string * string)) :
  json_members (kv :: kv' :: l)
  = json_member kv +:+ "," +:+ String LF "  " +:+ json_members (kv' :: l).
Proof. reflexivity. Qed.

Lemma skip_ws_json_members (kv : string * string) (l : list (string * string))
    (rest : string) :
  skip_ws (json_members (kv :: l) +:+ rest) = json_members (kv :: l) +:+ rest.
Proof.
  destruct (json_members_quote kv l rest) as [tail ->].
  by apply skip_ws_keep.
Qed.

Lemma parse_members_json_members (l : list (string * string)) :
  ∀ (kv : string * string) (fuel : nat) (rest : string) (acc : list (string * string)),
    length l < fuel →
    parse_members fuel (json_members (kv :: l) +:+ String LF ("}" +:+ rest)) acc
    = Some (acc ++ kv :: l, rest).
Proof.
  induction l as [|kv' l IH]; intros kv fuel rest acc Hfuel.
  - destruct fuel as [|fuel]; [simpl in Hfuel; lia |].
    cbn [json_members]. rewrite parse_members_member.
    rewrite (skip_ws_drop LF) by reflexivity.
    rewrite string_app_cons, string_app_nil_l.
    rewrite (skip_ws_keep "}") by reflexivity. reflexivity.
  - destruct fuel as [|fuel]; [simpl in Hfuel; lia |].
    rewrite json_members_cons, string_app_assoc, parse_members_member.
    set (R := String LF ("}" +:+ rest)).
    rewrite !string_app_assoc, !string_app_cons, !string_app_nil_l.
    rewrite (skip_ws_keep ",") by reflexivity.
    change ("," =? ",")%char with true. cbv iota.
    rewrite (skip_ws_drop LF), !(skip_ws_drop " ") by reflexivity.
    rewrite skip_ws_json_members. unfold R.
    rewrite IH by (simpl in Hfuel; lia).
    by rewrite <- app_assoc.
Qed.

Lemma length_json_member (kv : string * string) :
  (1 ≤ String.length (json_member kv))%nat.
Proof.
  unfold json_member, QuoteJSONString. rewrite string_app_cons.
  cbn [String.length]. lia.
Qed.

Lemma length_json_members (l : list (string * string)) :
  (length l ≤ String.length (json_members l))%nat.
Proof.
  induction l as [|kv l IH]; [simpl; lia |].
  destruct l as [|kv' l].
  - apply length_json_member.
  - rewrite json_members_cons, !string_length_app.
    pose proof (length_json_member kv). simpl in *. lia.
Qed.

(** The object of strings read back from its serialization. *)
Lemma parse_object_serialize (l : list (string * string)) :
  parse_object (SerializeJSONObject l) = Some l.
Proof.
  destruct l as [|kv l]; [reflexivity |].
  unfold SerializeJSONObject, parse_object.
  set (text := "{" +:+ String LF "  " +:+ json_members (kv :: l) +:+ String LF "}").
  assert (length l < String.length text) as Hfuel.
  { unfold text. rewrite !string_app_cons, string_app_nil_l.
    cbn [String.length]. rewrite !string_length_app.
    pose proof (length_json_members (kv :: l)). cbn [length] in *. lia. }
  revert Hfuel. generalize (String.length text). intros fuel Hfuel. unfold text.
  rewrite !string_app_cons, !string_app_nil_l.
  rewrite (skip_ws_keep "{") by reflexivity.
  rewrite expect_head. cbn [mbind option_bind].
  rewrite (skip_ws_drop LF), !(skip_ws_drop " ") by reflexivity.
  rewrite skip_ws_json_members.
  destruct (json_members_quote kv l (String LF "}")) as [tail Ht].
  rewrite Ht. change (QUOTE =? "}")%char with false. cbv iota. rewrite <- Ht.
  change (String LF "}") with (String LF ("}" +:+ "")).
  rewrite (parse_members_json_members l kv fuel "" []) by done.
  reflexivity.
Qed.

(** *** The properties read back make the model *)

Lemma elem_of_entries (m : Model) (keys : list string) (k v : string) :
  (k, v) ∈ entries m keys ↔ k ∈ keys ∧ m !! k = Some v.
Proof.
  unfold entries. rewrite list_elem_of_omap. split.
  - intros (k' & Hk & Hv). destruct (m !! k') as [v'|] eqn:E; simplify_eq/=. done.
  - intros [Hk Hv]. exists k. by rewrite Hv.
Qed.

Lemma foldl_insert_subseteq (l : list (string * string)) (acc m : Model) :
  acc ⊆ m → (∀ k v, (k, v) ∈ l → m !! k = Some v) →
  foldl (fun m kv => <[kv.1 := kv.2]> m) acc l ⊆ m.
Proof.
  revert acc. induction l as [|[k v] l IH]; intros acc Hacc Hl; [done |].
  simpl. apply IH.
  - apply insert_subseteq_l; [|done]. apply Hl. left.
  - intros k' v' Hin. apply Hl. by right.
Qed.

Lemma foldl_insert_is_Some (l : list (string * string)) (acc : Model) (k : string) :
  is_Some (acc !! k) ∨ k ∈ l.*1 →
  is_Some (foldl (fun m kv => <[kv.1 := kv.2]> m) acc l !! k).
Proof.
  revert acc. induction l as [|[k' v'] l IH]; intros acc H; simpl.
  - destruct H as [H | H]; [done | by apply elem_of_nil in H].
  - apply IH. destruct H as [H | H].
    + left. rewrite lookup_insert_is_Some. destruct (decide (k' = k)); auto.
    + simpl in H. apply elem_of_cons in H as [-> | H]; [|by right].
      left. rewrite lookup_insert_eq. by eexists.
Qed.

Lemma foldl_insert_entries (m : Model) (keys : list string) :
  (∀ k, k ∈ dom m → k ∈ keys) →
  foldl (fun m kv => <[kv.1 := kv.2]> m) ∅ (entries m keys) = m.
Proof.
  intros Hkeys.
  assert (foldl (fun m kv => <[kv.1 := kv.2]> m) ∅ (entries m keys) ⊆ m) as Hsub.
  { apply foldl_insert_subseteq; [apply map_empty_subseteq |].
    intros k v Hin. by apply elem_of_entries in Hin as [_ ?]. }
  apply map_eq. intros k. destruct (m !! k) as [v|] eqn:Hk.
  - destruct (foldl_insert_is_Some (entries m keys) ∅ k) as [v' Hv'].
    { right. apply list_elem_of_fmap. exists (k, v). split; [done |].
      apply elem_of_entries. split; [|done]. apply Hkeys, elem_of_dom. by eexists. }
    rewrite Hv'. f_equal.
    pose proof (lookup_weaken _ _ _ _ Hv' Hsub). congruence.
  - destruct (foldl _ _ _ !! k) as [v'|] eqn:Hv'; [|done].
    pose proof (lookup_weaken _ _ _ _ Hv' Hsub). congruence.
Qed.

(** C5: the export serializes the answer model to formatted JSON text, and
    parsing that text gives back a mapping equal to the model, in whatever
    order the engine enumerates the properties. *)
Theorem C5_export_round_trip (m : Model) (keys : list string) :
  keys ≡ₚ elements (dom m) →
  ∃ text,
    btnSalvar_click keys m
    = (m, [fx_download text "application/json" "respostas.json"]) ∧
    text = JSON_stringify m keys ∧
    JSON_parse text = Some m.
Proof.
  intros Hkeys. eexists. split; [reflexivity |]. split; [reflexivity |].
  unfold JSON_parse, JSON_stringify. rewrite parse_object_serialize. simpl.
  f_equal. apply foldl_insert_entries.
  intros k Hk. rewrite Hkeys. by apply elem_of_elements.
Qed.

Lemma C5_witness :
  JSON_stringify model_maria ["ident_nome"; "dor"] = text_maria ∧
  JSON_parse text_maria = Some model_maria.
Proof.
  destruct (C5_export_round_trip model_maria ["ident_nome"; "dor"])
    as (text & _ & Ht & Hp).
  - vm_compute. first [reflexivity | apply perm_swap].
  - assert (text = text_maria) as <-; [by rewrite Ht |]. split; [by rewrite Ht | exact Hp].
Defined.

(** * Further properties of the two files *)

#[local] Set Warnings "-clear-no-such-hyp".

(** ** Trees and their listeners *)

Lemma Node_ind_nested (P : Node → Prop) :
  (∀ s, P (Text s)) →
  (∀ t a l kids, Forall P kids → P (Element t a l kids)) →
  ∀ n, P n.
Proof.
  intros Ht He. fix IH 1. intros [t a l kids | s]; [|apply Ht].
  apply He. induction kids as [|k kids IHk]; constructor; [apply IH | apply IHk].
Qed.

Lemma listeners_in_Element t a l kids :
  listeners_in (Element t a l kids) = l ++ flat_map listeners_in kids.
Proof. reflexivity. Qed.

Lemma listeners_in_addEventListener ev h n x :
  x ∈ listeners_in (addEventListener ev h n) →
  x ∈ listeners_in n ∨ x = {| on_event := ev; handler := h |}.
Proof.
  destruct n as [t a l kids | s]; [|by left].
  cbn [addEventListener]. rewrite !listeners_in_Element.
  rewrite !elem_of_app, list_elem_of_singleton. tauto.
Qed.

(** Binding the elements a test selects adds that listener and no other. *)
Lemma listeners_in_update_where test ev h n x :
  x ∈ listeners_in (update_where test (addEventListener ev h) n) →
  x ∈ listeners_in n ∨ x = {| on_event := ev; handler := h |}.
Proof.
  revert x. induction n as [s | t a l kids IH] using Node_ind_nested; intros x; [by left |].
  cbn [update_where]. rewrite !listeners_in_Element, !elem_of_app.
  intros [Hx | Hx]; [by left; left |].
  apply list_elem_of_In, in_flat_map in Hx as (k' & Hk' & Hx).
  apply in_map_iff in Hk' as (k & <- & Hk).
  apply list_elem_of_In in Hx.
  rewrite Forall_forall in IH.
  assert (x ∈ listeners_in k ∨ x = {| on_event := ev; handler := h |}) as [H | H].
  { destruct (test k).
    - apply listeners_in_addEventListener in Hx as [Hx | Hx]; [|by right].
      apply IH; [by apply list_elem_of_In | done].
    - apply IH; [by apply list_elem_of_In | done]. }
  - left. right. apply list_elem_of_In, in_flat_map. exists k.
    split; [done | by apply list_elem_of_In].
  - by right.
Qed.

Lemma listeners_in_update_first sel ev h n n' x :
  update_first sel (addEventListener ev h) n = Some n' →
  x ∈ listeners_in n' →
  x ∈ listeners_in n ∨ x = {| on_event := ev; handler := h |}.
Proof.
  revert n' x. induction n as [s | t a l kids IH] using Node_ind_nested;
    intros n' x; [done |].
  cbn [update_first].
  set (go := fix go (ks : list Node) : option (list Node) :=
         match ks with
         | [] => None
         | k :: rest =>
             if matches sel k then Some (addEventListener ev h k :: rest)
             else match update_first sel (addEventListener ev h) k with
                  | Some k' => Some (k' :: rest)
                  | None => match go rest with
                            | Some rest' => Some (k :: rest')
                            | None => None
                            end
                  end
         end).
  assert (∀ kids', go kids = Some kids' →
          x ∈ flat_map listeners_in kids' →
          x ∈ flat_map listeners_in kids ∨ x = {| on_event := ev; handler := h |})
    as Hgo.
  { clear n'. induction IH as [|k kids Hk IHkids IHgo]; intros kids'; [done |].
    cbn [go flat_map].
    destruct (matches sel k).
    - intros [= <-]. cbn [flat_map]. rewrite !elem_of_app.
      intros [Hx | Hx]; [|by left; right].
      apply listeners_in_addEventListener in Hx as [Hx | Hx]; [by left; left | by right].
    - destruct (update_first sel (addEventListener ev h) k) as [k'|] eqn:Hk'.
      + intros [= <-]. cbn [flat_map]. rewrite !elem_of_app.
        intros [Hx | Hx]; [|by left; right].
        destruct (Hk _ _ eq_refl Hx) as [H | H]; [by left; left | by right].
      + destruct (go kids) as [rest'|] eqn:Hrest; [|done].
        intros [= <-]. cbn [flat_map]. rewrite !elem_of_app.
        intros [Hx | Hx]; [by left; left |].
        destruct (IHgo _ eq_refl Hx) as [H | H]; [by left; right | by right]. }
  destruct (go kids) as [kids'|] eqn:Hk; [|done].
  intros [= <-]. rewrite !listeners_in_Element, !elem_of_app.
  intros [Hx | Hx]; [by left; left |].
  destruct (Hgo _ eq_refl Hx) as [H | H]; [by left; right | by right].
Qed.

(** A listener of a node of the tree is a listener in the tree. *)
Lemma node_at_listeners_in path n target x :
  node_at path n = Some target → x ∈ listenersOf target → x ∈ listeners_in n.
Proof.
  revert n. induction path as [|i path IH]; intros n.
  - intros [= <-] Hx. destruct n as [t a l kids | s]; [|by apply elem_of_nil in Hx].
    rewrite listeners_in_Element. apply elem_of_app. by left.
  - cbn [node_at]. destruct (childNodes n !! i) as [k|] eqn:Hk; [|done].
    intros Ht Hx. destruct n as [t a l kids | s]; [|done].
    rewrite listeners_in_Element. apply elem_of_app. right.
    apply list_elem_of_In, in_flat_map. exists k. split.
    + apply list_elem_of_In, list_elem_of_lookup. by exists i.
    + apply list_elem_of_In. by apply IH.
Qed.

(** ** The listeners of a rendered unit *)

Lemma el_cls tag c : c ≠ "" → el tag (opts_cls c) "" = Element tag [("class", c)] [] [].
Proof. intros Hc. unfold el, opts_cls. cbn. repeat (case_decide; try done). Qed.

Lemma listeners_in_radio_options name os :
  flat_map listeners_in (map (radio_option name) os) = [].
Proof. induction os as [|o os IH]; [done |]. cbn [map flat_map]. by rewrite IH. Qed.

Lemma Return_inj {A} (a b : A) : Return a = Return b → a = b.
Proof. by intros [= ->]. Qed.

Lemma listen_first_listeners sel ev h wrap u x :
  listen_first sel ev h wrap = Return u → x ∈ listeners_in u →
  x ∈ listeners_in wrap ∨ x = {| on_event := ev; handler := h |}.
Proof.
  unfold listen_first.
  destruct (update_first sel (addEventListener ev h) wrap) as [w|] eqn:Hw; [|done].
  intros [= <-] Hx. exact (listeners_in_update_first _ _ _ _ _ _ Hw Hx).
Qed.

(** Every listener of the unit of a descriptor stores the value of its
    control under a key of the descriptor, on [input] or [change]. *)
Lemma unit_listeners (item : Item) render u x :
  renderer_for (type item) = Some render → render item = Return u →
  x ∈ listeners_in u →
  on_event x ≠ ev_click ∧ ∃ k, k ∈ item_keys item ∧ handler x = h_model_key k.
Proof.
  intros Hrf Hu Hx.
  assert (id item ∈ item_keys item) as Hid by (unfold item_keys; left).
  unfold renderer_for in Hrf.
  repeat (case_decide; [simplify_eq |]); [| | | | | | done].
  - unfold renderText in Hu. rewrite el_cls in Hu by done.
    apply (listen_first_listeners _ _ _ _ _ x Hu) in Hx as [Hx | ->];
      [by apply elem_of_nil in Hx | by eauto].
  - unfold renderNumber in Hu. rewrite el_cls in Hu by done.
    apply (listen_first_listeners _ _ _ _ _ x Hu) in Hx as [Hx | ->];
      [by apply elem_of_nil in Hx | by eauto].
  - unfold renderDate in Hu. rewrite el_cls in Hu by done.
    apply (listen_first_listeners _ _ _ _ _ x Hu) in Hx as [Hx | ->];
      [by apply elem_of_nil in Hx | by eauto].
  - unfold renderTextarea in Hu. rewrite el_cls in Hu by done.
    apply (listen_first_listeners _ _ _ _ _ x Hu) in Hx as [Hx | ->];
      [by apply elem_of_nil in Hx | by eauto].
  - unfold renderSimNao in Hu. rewrite el_cls in Hu by done.
    unfold listen_all, update_all in Hu.
    destruct (has_observation item) eqn:Hobs.
    + apply (listen_first_listeners _ _ _ _ _ x Hu) in Hx as [Hx | ->].
      * apply listeners_in_update_where in Hx as [Hx | ->];
          [by apply elem_of_nil in Hx | by eauto].
      * split; [done |]. exists (id item +:+ "_obs"). split; [|done].
        unfold item_keys. rewrite Hobs.
        match goal with H : type item = _ |- _ => rewrite H end.
        right. left.
    + cbv zeta in Hu. apply Return_inj in Hu. subst u.
      apply listeners_in_update_where in Hx as [Hx | ->];
        [by apply elem_of_nil in Hx | by eauto].
  - unfold renderRadio in Hu. rewrite el_cls in Hu by done.
    destruct (options item) as [os|]; [|done].
    cbv zeta in Hu. apply Return_inj in Hu. subst u.
    unfold listen_all, update_all in Hx.
    apply listeners_in_update_where in Hx as [Hx | ->]; [|by eauto].
    cbn [set_innerHTML] in Hx. rewrite listeners_in_Element in Hx.
    cbn [flat_map app] in Hx.
    rewrite !listeners_in_Element, listeners_in_radio_options in Hx.
    by apply elem_of_nil in Hx.
Qed.

(** ** The listeners of the assembled page *)

(** The container after assembly holds the title and the content block of
    each section of the assembler, and nothing else. *)
Lemma assemble_on_page (schema : list Item) :
  on_page (assemble schema).2 (assembler "Geral" (reached schema)).
Proof.
  rewrite assemble_forEach.
  destruct (schema_renders_or_throws schema)
    as [[Hall ->] | (pre & item & post & -> & Hpre & Hitem & ->)].
  - destruct (forEach_ok schema _ [] Hall (on_page0 schema)) as (p & Hf & Hp & _).
    simpl current_ref in Hf. by rewrite Hf.
  - destruct (forEach_throw pre item post _ [] Hpre Hitem
                (on_page0 (pre ++ item :: post))) as (e & p & Hf & Hp & _).
    simpl current_ref in Hf. rewrite Hf. cbn [snd].
    unfold assembler. rewrite foldl_app. cbn [foldl].
    by rewrite assembler_step_throw.
Qed.

Lemma reached_subseteq (schema : list Item) (item : Item) :
  item ∈ reached schema → item ∈ schema.
Proof.
  induction schema as [|d schema IH]; [done |]. cbn [reached].
  destruct (renders d).
  - rewrite !elem_of_cons. intros [-> | H]; [by left | right; by apply IH].
  - rewrite list_elem_of_singleton. intros ->. left.
Qed.

Lemma listeners_in_section_title label :
  listeners_in (section_title label)
  = [{| on_event := ev_click; handler := h_toggle_section |}].
Proof. unfold section_title, el, opts_cls. cbn. by repeat case_decide. Qed.

Lemma listeners_in_section_nodes secs x :
  x ∈ flat_map listeners_in (section_nodes secs) →
  x = {| on_event := ev_click; handler := h_toggle_section |}
  ∨ ∃ u, u ∈ concat secs.*2 ∧ x ∈ listeners_in u.
Proof.
  induction secs as [|[label units] secs IH]; [by intros ?%elem_of_nil |].
  change (section_nodes ((label, units) :: secs))
    with (section_title label :: section_content units :: section_nodes secs).
  cbn [flat_map]. rewrite listeners_in_section_title.
  unfold section_content at 1. rewrite listeners_in_Element.
  rewrite !elem_of_app, list_elem_of_singleton.
  intros [-> | [[Hx | Hx] | Hx]]; [by left | by apply elem_of_nil in Hx | | ].
  - right. apply list_elem_of_In, in_flat_map in Hx as (u & Hu & Hx).
    exists u. split; [|by apply list_elem_of_In].
    cbn [fmap list_fmap concat snd]. apply elem_of_app. left. by apply list_elem_of_In.
  - destruct (IH Hx) as [-> | (u & Hu & Hxu)]; [by left |].
    right. exists u. split; [|done].
    cbn [fmap list_fmap concat snd]. apply elem_of_app. by right.
Qed.

(** Every listener below the container is the toggle of a section title,
    or stores a value under a key of a descriptor of the schema. *)
Lemma page_listeners (schema : list Item) (r target : Node) (path : list nat)
    (x : Listener) :
  root (assemble schema).2 = Some r → path ≠ [] →
  node_at path r = Some target → x ∈ listenersOf target →
  x = {| on_event := ev_click; handler := h_toggle_section |}
  ∨ (on_event x ≠ ev_click
     ∧ ∃ item k, item ∈ schema ∧ k ∈ item_keys item ∧ handler x = h_model_key k).
Proof.
  intros Hr Hp Ht Hx.
  destruct (assemble_on_page schema) as (t & a & l & Hroot).
  rewrite Hroot in Hr. injection Hr as <-.
  destruct path as [|i path]; [done |]. cbn [node_at childNodes] in Ht.
  destruct (section_nodes _ !! i) as [k|] eqn:Hk; [|done].
  assert (x ∈ flat_map listeners_in
                (section_nodes (assembler "Geral" (reached schema)))) as Hin.
  { apply list_elem_of_In, in_flat_map. exists k. split.
    - apply list_elem_of_In, list_elem_of_lookup. by exists i.
    - apply list_elem_of_In. by eapply node_at_listeners_in. }
  apply listeners_in_section_nodes in Hin as [-> | (u & Hu & Hxu)]; [by left |].
  right. unfold assembler in Hu. rewrite assembler_units in Hu. cbn [app fmap concat] in Hu.
  apply list_elem_of_In, in_flat_map in Hu as (item & Hitem & Hu).
  apply list_elem_of_In in Hitem. apply reached_subseteq in Hitem.
  unfold units_of in Hu.
  destruct (renderer_for (type item)) as [render|] eqn:Hrf; [|done].
  destruct (render item) as [u'|] eqn:Hru; [|done].
  destruct Hu as [<- | []].
  destruct (unit_listeners item render u' x Hrf Hru Hxu) as (Hev & key & Hkey & Hh).
  split; [done |]. by exists item, key.
Qed.

(** ** What the rendered form can write *)

Lemma dispatch_keys_from (K : gset string) (e : Event) (ls : list Listener)
    (st : Model * list Effect) :
  (∀ x, x ∈ ls → on_event x = ev_type e →
        handler x = h_toggle_section ∨ ∃ k, k ∈ K ∧ handler x = h_model_key k) →
  dom (foldl (fun st l =>
                if decide (on_event l = ev_type e)
                then let r := run_handler (handler l) e st.1 in (r.1, st.2 ++ r.2)
                else st) st ls).1
  ⊆ dom st.1 ∪ K.
Proof.
  revert st. induction ls as [|l ls IH]; intros st Hls; simpl; [set_solver |].
  etrans; [apply IH; intros x Hx; apply Hls; by right |].
  case_decide as Hev; [|set_solver].
  destruct (Hls l (list_elem_of_here _ _) Hev) as [-> | (k & Hk & ->)]; simpl.
  - set_solver.
  - rewrite dom_insert_L. set_solver.
Qed.

Lemma step_on_form (schema : list Item) (r : Node) (op : Operation) (m : Model) :
  root (assemble schema).2 = Some r → on_form r op →
  dom (step op m).1 ⊆ dom m ∪ schema_keys schema.
Proof.
  intros Hr Hop. destruct op as [e | db | keys | env]; simpl.
  - destruct Hop as (path & Hp & Ht).
    apply (dispatch_keys_from _ e _ (m, [])). intros x Hx Hev.
    destruct (page_listeners schema r _ path x Hr Hp Ht Hx)
      as [-> | (_ & item & k & Hitem & Hk & Hh)]; [by left |].
    right. exists k. split; [|done].
    unfold schema_keys. apply elem_of_list_to_set, list_elem_of_In, in_flat_map.
    exists item. split; by apply list_elem_of_In.
  - unfold btnSalvar_save. destruct (db m); set_solver.
  - set_solver.
  - unfold gerarDoc. repeat case_match; set_solver.
Qed.

(** X1: in a session on the rendered form, whatever the events and their
    order, the keys of the answer model are keys of the schema: the id of a
    descriptor, or the observation key of a Yes/No descriptor that has an
    observation. *)
Theorem X1_model_keys_are_schema_keys
    (schema : list Item) (r : Node) (ops : list Operation) :
  root (assemble schema).2 = Some r → Forall (on_form r) ops →
  dom (run ops model) ⊆ schema_keys schema.
Proof.
  intros Hr Hops.
  assert (∀ m, dom (run ops m) ⊆ dom m ∪ schema_keys schema) as H.
  { induction Hops as [|op ops Hop Hops IH]; intros m; [set_solver |].
    simpl. etrans; [apply IH |].
    pose proof (step_on_form schema r op m Hr Hop). set_solver. }
  specialize (H model). unfold model in *. set_solver.
Qed.

Lemma X1_witness :
  dom (run [op_dispatch (input_event control_x "Maria"); op_export ["x"]] model)
  ⊆ schema_keys [group_A; item_x].
Proof.
  eapply (X1_model_keys_are_schema_keys [group_A; item_x]).
  - reflexivity.
  - repeat constructor. exists [1; 0; 1]. split; [discriminate | reflexivity].
Defined.




(** ** Choices *)






(** ** Loading the schema *)

(** X6: when the schema cannot be loaded (the fetch is rejected, the status
    is not a success, with the status in the message, or the body is not JSON)
    assembly ends with the exception before any section is made: the page
    is left as it was. *)
Theorem X6_load_failure_renders_nothing :
  (∀ e p, renderFormulario (fetch_rejected e) p = (Throw e, p)) ∧
  (∀ status json p,
     renderFormulario (fetch_response false status json) p
     = (Throw (Error ("Falhou ao carregar perguntas.json: " +:+ pretty status)), p)) ∧
  (∀ status e p,
     renderFormulario (fetch_response true status (Throw e)) p = (Throw e, p)).
Proof. repeat split. Qed.

(** X7: without the container the module logs one error; assembly of a
    schema with a descriptor then throws at the first section it opens and
    renders nothing, while an empty schema goes through. *)
Theorem X7_missing_container :
  console (page_init None)
  = [console_error "ERRO: container #formulario não encontrado."] ∧
  (∀ status item rest,
     renderFormulario (fetch_response true status (Return (item :: rest)))
       (page_init None)
     = (Throw (TypeError "Cannot read properties of null (reading 'appendChild')"),
        {| root := None; perguntas := item :: rest;
           console := console (page_init None) |})) ∧
  (∀ status,
     renderFormulario (fetch_response true status (Return [])) (page_init None)
     = (Return tt, page_init None)).
Proof.
  split; [done |]. split; [|done].
  intros status item rest.
  assert (∀ p, root p = None →
            each_pergunta item None p
            = (Throw (TypeError "Cannot read properties of null (reading 'appendChild')"),
               p)) as Hfirst.
  { intros p Hp. unfold each_pergunta.
    destruct (decide (type item = "group"));
      unfold bind, createSection, bind, root_appendChild; by rewrite Hp. }
  unfold renderFormulario, carregarPerguntas. cbn [negb]. unfold bind, lift, ret.
  cbn [forEach perguntas]. unfold bind. by rewrite Hfirst.
Qed.

(** ** script.js: the sections in order *)

Section script_sections.
Context {Field : Type}.
Implicit Types (s : Script.Secao Field) (l : list (Script.Secao Field)).

Lemma insert_by_ordenacao_perm s l : Script.insert_by_ordenacao s l ≡ₚ s :: l.
Proof.
  induction l as [|x l IH]; [done |]. cbn [Script.insert_by_ordenacao].
  destruct (_ <? _)%Z; [|done]. rewrite IH. apply perm_swap.
Qed.

Lemma sort_perm l : Script.sort l ≡ₚ l.
Proof.
  induction l as [|x l IH]; [done |]. cbn [Script.sort foldr].
  rewrite insert_by_ordenacao_perm. by constructor.
Qed.

Lemma insert_by_ordenacao_sorted s l :
  StronglySorted by_ordenacao l →
  StronglySorted by_ordenacao (Script.insert_by_ordenacao s l).
Proof.
  induction 1 as [|x l Hl IH Hx]; cbn [Script.insert_by_ordenacao].
  - repeat constructor.
  - destruct (_ <? _)%Z eqn:Hlt.
    + constructor; [done |].
      rewrite insert_by_ordenacao_perm. constructor; [|done].
      apply Z.ltb_lt in Hlt. unfold by_ordenacao. lia.
    + apply Z.ltb_ge in Hlt. constructor; [by constructor |].
      constructor; [done |].
      eapply Forall_impl; [exact Hx |]. unfold by_ordenacao. intros y Hy. lia.
Qed.

Lemma sort_sorted l : StronglySorted by_ordenacao (Script.sort l).
Proof.
  induction l as [|x l IH]; [constructor |].
  cbn [Script.sort foldr]. by apply insert_by_ordenacao_sorted.
Qed.

Lemma insert_by_ordenacao_stable k s l :
  with_ordenacao k (Script.insert_by_ordenacao s l) = with_ordenacao k (s :: l).
Proof.
  unfold with_ordenacao.
  induction l as [|x l IH]; [done |]. cbn [Script.insert_by_ordenacao].
  destruct (_ <? _)%Z eqn:Hlt; [|done]. apply Z.ltb_lt in Hlt.
  rewrite (filter_cons _ x), IH, !filter_cons.
  repeat case_decide; try done. lia.
Qed.

Lemma sort_stable k l : with_ordenacao k (Script.sort l) = with_ordenacao k l.
Proof.
  induction l as [|x l IH]; [done |]. cbn [Script.sort foldr].
  rewrite insert_by_ordenacao_stable. unfold with_ordenacao in *.
  rewrite !filter_cons. fold (Script.sort l). by rewrite IH.
Qed.

Lemma sort_sorted_id l : StronglySorted by_ordenacao l → Script.sort l = l.
Proof.
  induction 1 as [|x l Hl IH Hx]; [done |]. cbn [Script.sort foldr].
  fold (Script.sort l). rewrite IH.
  destruct l as [|y l]; [done |]. cbn [Script.insert_by_ordenacao].
  apply Forall_cons in Hx as [Hxy _]. unfold by_ordenacao in Hxy.
  destruct (_ <? _)%Z eqn:Hlt; [|done]. apply Z.ltb_lt in Hlt. lia.
Qed.

Lemma map_renderSecao_throws renderField l s e :
  s ∈ l → Script.renderSecao renderField s = Throw e →
  ∃ e', Script.map_renderSecao renderField l = Throw e'.
Proof.
  induction l as [|x l IH]; [by intros ?%elem_of_nil |].
  rewrite elem_of_cons. intros [<- | Hs] He; cbn [Script.map_renderSecao].
  - rewrite He. by eexists.
  - destruct (Script.renderSecao renderField x); [|by eexists].
    destruct (IH Hs He) as [e' ->]. by eexists.
Qed.

Variable renderField : Field → nat → list Field → string.
Variable set_app_innerHTML : string → Node → Node.

(** X8: [renderFormulario] of script.js leaves the global list of sections
    sorted by ascending order key, each section of the list once; when no
    section throws, the markup written to [app] is the markup of the
    sections joined in that order. *)
Theorem X8_sections_sorted_by_ordenacao (w : Script.World) :
  let r := Script.renderFormulario renderField set_app_innerHTML w in
  StronglySorted by_ordenacao (Script.FORMULARIO_COMPLETO r.2) ∧
  Script.FORMULARIO_COMPLETO r.2 ≡ₚ Script.FORMULARIO_COMPLETO w ∧
  ∀ htmls,
    Script.map_renderSecao renderField (Script.FORMULARIO_COMPLETO r.2)
    = Return htmls →
    r.1 = Return tt ∧ Script.app_innerHTML r.2 = Script.join htmls.
Proof.
  cbn zeta. unfold Script.renderFormulario.
  destruct (Script.map_renderSecao renderField
              (Script.sort (Script.FORMULARIO_COMPLETO w))) as [hs | e] eqn:Hm;
    cbn [fst snd Script.FORMULARIO_COMPLETO Script.app_innerHTML];
    (split; [apply sort_sorted |]); (split; [apply sort_perm |]);
    intros htmls Hh; rewrite Hm in Hh; by simplify_eq.
Qed.

(** X9: sections with the same order key keep the order they have in the
    list: the sort of [renderFormulario] is stable. *)
Theorem X9_equal_ordenacao_keeps_order (w : Script.World) (k : Z) :
  let r := Script.renderFormulario renderField set_app_innerHTML w in
  with_ordenacao k (Script.FORMULARIO_COMPLETO r.2)
  = with_ordenacao k (Script.FORMULARIO_COMPLETO w).
Proof.
  cbn zeta. unfold Script.renderFormulario.
  destruct (Script.map_renderSecao _ _);
    cbn [snd Script.FORMULARIO_COMPLETO]; apply sort_stable.
Qed.

(** X10: rendering again changes nothing: the list, sorted in place by the
    first call, is left as it is by the second, and the same markup is
    written to [app]; the outcome is the same. *)
Theorem X10_render_again_same_markup (w : Script.World) :
  let r1 := Script.renderFormulario renderField set_app_innerHTML w in
  let r2 := Script.renderFormulario renderField set_app_innerHTML r1.2 in
  Script.FORMULARIO_COMPLETO r2.2 = Script.FORMULARIO_COMPLETO r1.2 ∧
  Script.app_innerHTML r2.2 = Script.app_innerHTML r1.2 ∧
  r2.1 = r1.1.
Proof.
  cbn zeta.
  destruct (Script.map_renderSecao renderField
              (Script.sort (Script.FORMULARIO_COMPLETO w))) as [hs | e] eqn:Hm.
  - assert (Script.renderFormulario renderField set_app_innerHTML w
            = (Return tt,
               {| Script.FORMULARIO_COMPLETO := Script.sort (Script.FORMULARIO_COMPLETO w);
                  Script.app_innerHTML := Script.join hs;
                  Script.document :=
                    addEventListeners
                      (set_app_innerHTML (Script.join hs) (Script.document w)) |}))
      as -> by (unfold Script.renderFormulario; by rewrite Hm).
    unfold Script.renderFormulario.
    cbn [fst snd Script.FORMULARIO_COMPLETO Script.app_innerHTML Script.document].
    rewrite (sort_sorted_id _ (sort_sorted _)), Hm. done.
  - assert (Script.renderFormulario renderField set_app_innerHTML w
            = (Throw e,
               {| Script.FORMULARIO_COMPLETO := Script.sort (Script.FORMULARIO_COMPLETO w);
                  Script.app_innerHTML := Script.app_innerHTML w;
                  Script.document := Script.document w |}))
      as -> by (unfold Script.renderFormulario; by rewrite Hm).
    unfold Script.renderFormulario.
    cbn [fst snd Script.FORMULARIO_COMPLETO Script.app_innerHTML Script.document].
    rewrite (sort_sorted_id _ (sort_sorted _)), Hm. done.
Qed.

(** X11: a section of a supported type whose [fields] are missing makes
    [renderSecao] throw; [renderFormulario] then ends with an exception,
    the list already sorted, and writes nothing to [app] and binds no
    listener.  A section of another type is rendered without fields,
    whether it has some or not. *)
Theorem X11_section_without_fields (w : Script.World) (s : Script.Secao Field) :
  s ∈ Script.FORMULARIO_COMPLETO w →
  Script.supported (Script.type (Script.schema s)) = true →
  Script.fields (Script.schema s) = None →
  (∃ msg, Script.renderSecao renderField s = Throw (TypeError msg)) ∧
  (∃ e, Script.renderFormulario renderField set_app_innerHTML w
        = (Throw e,
           {| Script.FORMULARIO_COMPLETO := Script.sort (Script.FORMULARIO_COMPLETO w);
              Script.app_innerHTML := Script.app_innerHTML w;
              Script.document := Script.document w |})) ∧
  (∀ s' : Script.Secao Field,
     Script.supported (Script.type (Script.schema s')) = false →
     Script.renderSecao renderField s'
     = Return (Script.secao_html (Script.id (Script.meta s'))
                 (Script.titulo (Script.meta s')) "")).
Proof.
  intros Hs Hsup Hf.
  assert (∃ msg, Script.renderSecao renderField s = Throw (TypeError msg)) as [msg Hthrow].
  { unfold Script.renderSecao. rewrite Hsup, Hf. by eexists. }
  split; [by exists msg |]. split.
  - assert (s ∈ Script.sort (Script.FORMULARIO_COMPLETO w)) as Hs'
      by (by rewrite sort_perm).
    destruct (map_renderSecao_throws renderField _ s _ Hs' Hthrow) as [e He].
    exists e. unfold Script.renderFormulario. by rewrite He.
  - intros s' Hs'. unfold Script.renderSecao. by rewrite Hs'.
Qed.

End script_sections.

Lemma X8_witness :
  (Script.renderFormulario renderField_text set_app_text
     (world_of [secao_of "b" 2 "form" (Some ["f1"; "f2"]); secao_of "a" 1 "capa" None])).1
  = Return tt ∧
  Script.app_innerHTML
    (Script.renderFormulario renderField_text set_app_text
       (world_of [secao_of "b" 2 "form" (Some ["f1"; "f2"]); secao_of "a" 1 "capa" None])).2
  = Script.join [Script.secao_html "a" "a" ""; Script.secao_html "b" "b" "f1f2"].
Proof.
  apply (X8_sections_sorted_by_ordenacao renderField_text set_app_text
           (world_of [secao_of "b" 2 "form" (Some ["f1"; "f2"]);
                      secao_of "a" 1 "capa" None])).
  reflexivity.
Defined.

Lemma X11_witness :
  ∃ e,
    Script.renderFormulario renderField_text set_app_text
      (world_of [secao_of "b" 2 "form" None; secao_of "a" 1 "capa" None])
    = (Throw e,
       world_of [secao_of "a" 1 "capa" None; secao_of "b" 2 "form" None]).
Proof.
  destruct (X11_section_without_fields renderField_text set_app_text
              (world_of [secao_of "b" 2 "form" None; secao_of "a" 1 "capa" None])
              (secao_of "b" 2 "form" None)) as (_ & [e He] & _).
  - left.
  - reflexivity.
  - reflexivity.
  - exists e. exact He.
Defined.

(** ** script.js: which elements [addEventListeners] binds *)

Lemma inside_at_addEventListener cl ev h path n :
  inside_at cl path (addEventListener ev h n) = inside_at cl path n.
Proof. destruct path; [done |]. by destruct n. Qed.

Lemma classList_contains_same cl n n' :
  same_element n n' → classList_contains cl n = classList_contains cl n'.
Proof.
  intros H. unfold classList_contains. by rewrite (same_element_reflected "class" _ _ H).
Qed.

Lemma inside_at_update_where cl test ev h path doc :
  inside_at cl path (update_where test (addEventListener ev h) doc)
  = inside_at cl path doc.
Proof.
  revert doc. induction path as [|i path IH]; intros doc; [done |].
  cbn [inside_at].
  rewrite <- (classList_contains_same cl _ _ (same_element_update_where test _ doc)).
  f_equal. destruct doc as [t a l kids | s]; [|done].
  cbn [update_where childNodes]. rewrite list_lookup_fmap.
  destruct (kids !! i) as [k|]; [|done]. cbn [fmap option_fmap option_map].
  destruct (test k); [rewrite inside_at_addEventListener |]; apply IH.
Qed.

(** The node at a path after the pass over [.c sel]: bound exactly when it
    matches [sel] below an element of class [c]. *)
Lemma node_at_update_within_exact cl sel ev h path doc c b :
  path ≠ [] → node_at path doc = Some c →
  node_at path (update_within cl sel (addEventListener ev h) b doc)
  = Some (let inside := b || inside_at cl path doc in
          let c' := update_within cl sel (addEventListener ev h) inside c in
          if inside && matches sel c then addEventListener ev h c' else c').
Proof.
  revert doc b. induction path as [|i path IH]; [done |].
  intros doc b _ Hc. destruct doc as [t a l kids | s]; [|done].
  cbn [update_within node_at childNodes inside_at] in *. rewrite list_lookup_fmap.
  destruct (kids !! i) as [k|] eqn:Hk; [|done]. cbn [fmap option_fmap option_map].
  destruct path as [|j path].
  - cbn [node_at inside_at] in *. simplify_eq. by rewrite orb_false_r.
  - rewrite orb_assoc.
    destruct (_ && matches sel k).
    + rewrite node_at_addEventListener by done. by apply IH.
    + by apply IH.
Qed.

Lemma listenersOf_bound_where sel test f ev h n :
  matches sel n = true →
  listenersOf (addEventListener ev h (update_where test f n))
  = listenersOf n ++ [{| on_event := ev; handler := h |}].
Proof. by destruct n. Qed.

Lemma listenersOf_bound_within sel cl sel' f b ev h n :
  matches sel n = true →
  listenersOf (addEventListener ev h (update_within cl sel' f b n))
  = listenersOf n ++ [{| on_event := ev; handler := h |}].
Proof. by destruct n. Qed.

Lemma scalar_control_matches c :
  is_scalar_control c = true → ∃ sel, matches sel c = true.
Proof.
  unfold is_scalar_control. rewrite !orb_true_iff.
  intros [[[[H | H] | H] | H] | H]; eauto.
Qed.

(** What [addEventListeners] does to one element: it stays where it is,
    with its tag and attributes, and gets the listener of each of the three
    queries that selects it. *)
Lemma addEventListeners_at (doc c : Node) (path : list nat) :
  path ≠ [] → node_at path doc = Some c →
  ∃ c',
    node_at path (addEventListeners doc) = Some c' ∧
    same_element c c' ∧
    listenersOf c'
    = listenersOf c
      ++ (if is_scalar_control c
          then [{| on_event := ev_input; handler := h_model_target_id |}] else [])
      ++ (if inside_at "radio-group" path doc
             && matches (sel_tag_attr "input" "type" "radio") c
          then [{| on_event := ev_change; handler := h_model_target_name |}] else [])
      ++ (if matches (sel_tag_attr "input" "type" "range") c
          then [{| on_event := ev_input; handler := h_model_range |}] else []).
Proof.
  intros Hp Hc. unfold addEventListeners.
  pose proof (node_at_update_where is_scalar_control ev_input h_model_target_id
                _ _ _ Hp Hc) as H1.
  cbn zeta in H1.
  set (c1 := if is_scalar_control c then _ else _) in H1.
  assert (same_element c c1 ∧
          listenersOf c1
          = listenersOf c
            ++ (if is_scalar_control c
                then [{| on_event := ev_input; handler := h_model_target_id |}]
                else [])) as [Hs1 Hl1].
  { unfold c1. destruct (is_scalar_control c) eqn:Hsc.
    - split.
      + eapply same_element_trans; [apply same_element_update_where |].
        apply same_element_addEventListener.
      + destruct (scalar_control_matches c Hsc) as [sel Hsel].
        by apply (listenersOf_bound_where sel).
    - split; [apply same_element_update_where |].
      by rewrite listenersOf_update_where, app_nil_r. }
  pose proof (node_at_update_within_exact "radio-group"
                (sel_tag_attr "input" "type" "radio") ev_change h_model_target_name
                _ _ _ false Hp H1) as H2.
  cbn zeta in H2. rewrite orb_false_l, inside_at_update_where in H2.
  rewrite <- (same_element_matches _ _ _ Hs1) in H2.
  set (c2 := if _ && _ then _ else _) in H2.
  assert (same_element c c2 ∧
          listenersOf c2
          = listenersOf c1
            ++ (if inside_at "radio-group" path doc
                   && matches (sel_tag_attr "input" "type" "radio") c
                then [{| on_event := ev_change; handler := h_model_target_name |}]
                else [])) as [Hs2 Hl2].
  { unfold c2. destruct (_ && matches _ c) eqn:Hr.
    - split.
      + eapply same_element_trans; [exact Hs1 |].
        eapply same_element_trans; [apply same_element_update_within |].
        apply same_element_addEventListener.
      + apply andb_true_iff in Hr as [_ Hr].
        rewrite (same_element_matches _ _ _ Hs1) in Hr.
        by apply (listenersOf_bound_within (sel_tag_attr "input" "type" "radio")).
    - split.
      + eapply same_element_trans; [exact Hs1 |]. apply same_element_update_within.
      + by rewrite listenersOf_update_within, app_nil_r. }
  pose proof (node_at_update_where (matches (sel_tag_attr "input" "type" "range"))
                ev_input h_model_range _ _ _ Hp H2) as H3.
  cbn zeta in H3. rewrite <- (same_element_matches _ _ _ Hs2) in H3.
  eexists. split; [exact H3 |].
  destruct (matches (sel_tag_attr "input" "type" "range") c) eqn:Hg.
  - split.
    + eapply same_element_trans; [exact Hs2 |].
      eapply same_element_trans; [apply same_element_update_where |].
      apply same_element_addEventListener.
    + rewrite (same_element_matches _ _ _ Hs2) in Hg.
      rewrite (listenersOf_bound_where _ _ _ _ _ _ Hg), Hl2, Hl1.
      by rewrite <- !app_assoc.
  - split.
    + eapply same_element_trans; [exact Hs2 |]. apply same_element_update_where.
    + by rewrite listenersOf_update_where, Hl2, Hl1, app_nil_r, <- app_assoc.
Qed.

Lemma same_element_getAttribute a n n' :
  same_element n n' → getAttribute a n = getAttribute a n'.
Proof.
  unfold same_element.
  destruct n as [t x l c|d], n' as [t' x' l' c'|d']; simpl; intros H;
    simplify_eq; done.
Qed.

Lemma radio_not_scalar_range c :
  matches (sel_tag_attr "input" "type" "radio") c = true →
  is_scalar_control c = false ∧
  matches (sel_tag_attr "input" "type" "range") c = false.
Proof.
  destruct c as [t a l kids|d]; [|done].
  unfold is_scalar_control, matches, getAttribute. simpl.
  intros H. split; decide_all; simplify_eq.
Qed.

Lemma range_not_scalar_radio c :
  matches (sel_tag_attr "input" "type" "range") c = true →
  is_scalar_control c = false ∧
  matches (sel_tag_attr "input" "type" "radio") c = false.
Proof.
  destruct c as [t a l kids|d]; [|done].
  unfold is_scalar_control, matches, getAttribute. simpl.
  intros H. split; decide_all; simplify_eq.
Qed.

(** X12: a radio button below an element of class [radio-group] gets the
    listener of [addEventListeners]: choosing it stores its value under its
    [name] and changes no other key. *)
Theorem X12_grouped_radio_sets_model_key (doc c : Node) (path : list nat) :
  path ≠ [] → node_at path doc = Some c →
  matches (sel_tag_attr "input" "type" "radio") c = true →
  inside_at "radio-group" path doc = true →
  listenersOf c = [] →
  ∃ c',
    node_at path (addEventListeners doc) = Some c' ∧
    ∀ m : Model,
      writes_only (reflected "name" c) (default "on" (getAttribute "value" c)) m
        (dispatchEvent (change_event c') m).1.
Proof.
  intros Hp Hc Hr Hin Hl.
  destruct (addEventListeners_at doc c path Hp Hc) as (c' & Hc' & Hs & Hl').
  destruct (radio_not_scalar_range c Hr) as [Hsc Hrg].
  rewrite Hl, Hsc, Hin, Hr, Hrg in Hl'. cbn in Hl'.
  exists c'. split; [done |]. intros m.
  unfold dispatchEvent, change_event. cbn [target ev_type]. rewrite Hl'. cbn.
  rewrite <- (same_element_reflected "name" _ _ Hs),
    <- (same_element_getAttribute "value" _ _ Hs).
  apply writes_only_insert.
Qed.

Lemma X12_witness :
  ∃ c',
    node_at [0; 0; 0] (addEventListeners document_controls) = Some c' ∧
    ∀ m : Model, writes_only "dor" "Sim" m (dispatchEvent (change_event c') m).1.
Proof.
  apply (X12_grouped_radio_sets_model_key document_controls
           (Element "input" [("type", "radio"); ("name", "dor"); ("value", "Sim")] [] [])
           [0; 0; 0]);
    first [discriminate | reflexivity].
Defined.



(** X14: a slider gets one listener: moving it stores its value under its
    id, and shows the value in the element after it when that element has
    the class [scale-value], and only then. *)
Theorem X14_slider_sets_model_and_display (doc c : Node) (path : list nat) :
  path ≠ [] → node_at path doc = Some c →
  matches (sel_tag_attr "input" "type" "range") c = true →
  listenersOf c = [] →
  ∃ c',
    node_at path (addEventListeners doc) = Some c' ∧
    ∀ (v : string) (sibling : option Node) (m : Model),
      dispatchEvent
        {| ev_type := ev_input; target := c'; value := v;
           nextElementSibling := sibling |} m
      = (<[reflected "id" c := v]> m,
         match sibling with
         | Some display =>
             if classList_contains "scale-value" display then [fx_display v] else []
         | None => []
         end).
Proof.
  intros Hp Hc Hrg Hl.
  destruct (addEventListeners_at doc c path Hp Hc) as (c' & Hc' & Hs & Hl').
  destruct (range_not_scalar_radio c Hrg) as [Hsc Hr].
  rewrite Hl, Hsc, Hr, Hrg, andb_false_r in Hl'. cbn in Hl'.
  exists c'. split; [done |]. intros v sibling m.
  unfold dispatchEvent. cbn [target ev_type]. rewrite Hl'. cbn.
  by rewrite <- (same_element_reflected "id" _ _ Hs).
Qed.

Lemma X14_witness :
  ∃ c' display,
    node_at [1; 0] (addEventListeners document_controls) = Some c' ∧
    node_at [1; 1] (addEventListeners document_controls) = Some display ∧
    ∀ m : Model,
      dispatchEvent
        {| ev_type := ev_input; target := c'; value := "7";
           nextElementSibling := Some display |} m
      = (<["escala" := "7"]> m, [fx_display "7"]).
Proof.
  destruct (X14_slider_sets_model_and_display document_controls
              (Element "input" [("type", "range"); ("id", "escala")] [] []) [1; 0])
    as (c' & Hc' & H); try first [discriminate | reflexivity].
  eexists c', _. split; [exact Hc' |]. split; [reflexivity |].
  intros m. rewrite H. reflexivity.
Defined.

(** X15: [addEventListeners] gives an element at most one listener: the
    three queries select disjoint sets of elements. *)
Theorem X15_at_most_one_listener (doc c : Node) (path : list nat) :
  path ≠ [] → node_at path doc = Some c →
  ∃ c',
    node_at path (addEventListeners doc) = Some c' ∧
    same_element c c' ∧
    (listenersOf c' = listenersOf c ∨ ∃ x, listenersOf c' = listenersOf c ++ [x]).
Proof.
  intros Hp Hc.
  destruct (addEventListeners_at doc c path Hp Hc) as (c' & Hc' & Hs & Hl').
  exists c'. split; [done |]. split; [done |]. rewrite Hl'.
  destruct (is_scalar_control c) eqn:Hsc.
  - destruct (scalar_control_not_radio_range c Hsc) as [-> ->].
    rewrite andb_false_r. right. by eexists.
  - destruct (matches (sel_tag_attr "input" "type" "radio") c) eqn:Hr.
    + destruct (radio_not_scalar_range c Hr) as [_ ->].
      destruct (inside_at _ _ _); simpl.
      * right. by eexists.
      * left. apply app_nil_r.
    + rewrite andb_false_r.
      destruct (matches (sel_tag_attr "input" "type" "range") c); simpl.
      * right. by eexists.
      * left. apply app_nil_r.
Qed.

Lemma X15_witness :
  ∃ c',
    node_at [1; 0] (addEventListeners document_controls) = Some c' ∧
    listenersOf c' = [{| on_event := ev_input; handler := h_model_range |}].
Proof.
  destruct (X15_at_most_one_listener document_controls
              (Element "input" [("type", "range"); ("id", "escala")] [] []) [1; 0])
    as (c' & Hc' & _ & _); try first [discriminate | reflexivity].
  exists c'. split; [exact Hc' |].
  vm_compute in Hc'. injection Hc' as <-. reflexivity.
Defined.

Lemma strip_listeners_addEventListener ev h n :
  strip_listeners (addEventListener ev h n) = strip_listeners n.
Proof. by destruct n. Qed.

Lemma strip_listeners_update_where test ev h n :
  strip_listeners (update_where test (addEventListener ev h) n) = strip_listeners n.
Proof.
  induction n as [s | t a l kids IH] using Node_ind_nested; [done |].
  cbn [update_where strip_listeners]. f_equal. rewrite map_map.
  apply map_ext_Forall. eapply Forall_impl; [exact IH |].
  intros k Hk. cbn zeta. destruct (test k); [|done].
  by rewrite strip_listeners_addEventListener.
Qed.

Lemma strip_listeners_update_within cl sel ev h n :
  ∀ b, strip_listeners (update_within cl sel (addEventListener ev h) b n)
       = strip_listeners n.
Proof.
  induction n as [s | t a l kids IH] using Node_ind_nested; intros b; [done |].
  cbn [update_within strip_listeners]. f_equal. rewrite map_map.
  apply map_ext_Forall. eapply Forall_impl; [exact IH |].
  intros k Hk. cbn zeta. destruct (_ && matches sel k); [|done].
  by rewrite strip_listeners_addEventListener.
Qed.

(** X16: [addEventListeners] only adds listeners: without them the document
    is the one it was given, with every element, attribute and text where
    it was. *)
Theorem X16_addEventListeners_keeps_document (doc : Node) :
  strip_listeners (addEventListeners doc) = strip_listeners doc.
Proof.
  unfold addEventListeners.
  by rewrite strip_listeners_update_where, strip_listeners_update_within,
    strip_listeners_update_where.
Qed.

(** ** script.js: what the buttons report *)


(** X18: [gerarDoc] leaves the model as it is and always ends with exactly
    one notification, after at most one fetch.  A document is saved at most
    once, under the name of [docx_filename], and then the notification is
    the one of success; the notification of success is never given
    without a saved document. *)
Theorem X18_gerarDoc_reports_once (env : DocEnv) (m : Model) :
  (gerarDoc env m).1 = m ∧
  length (alerts (gerarDoc env m).2) = 1 ∧
  (length (fetches (gerarDoc env m).2) ≤ 1)%nat ∧
  ((saved (gerarDoc env m).2 = [] ∧
    "Documento gerado com sucesso!" ∉ alerts (gerarDoc env m).2)
   ∨ (∃ out, saved (gerarDoc env m).2 = [(out, docx_filename m (now env))] ∧
             alerts (gerarDoc env m).2 = ["Documento gerado com sucesso!"])).
Proof.
  unfold gerarDoc.
  destruct (negb (PizZip_defined env) || negb (docxtemplater_defined env));
    [|destruct (fetch_template env) as [content|];
      [destruct (docx_generate env content m) as [out|];
       [destruct (saveAs_defined env) |] |]];
    cbn; (split; [done |]); (split; [done |]); (split; [lia |]);
    try (right; by eexists);
    left; (split; [done |]);
    rewrite list_elem_of_singleton; discriminate.
Qed.

(** X19: the check of [gerarDoc] covers the two templating libraries and not
    [saveAs]: with the libraries loaded and [saveAs] missing, the template
    is fetched and the document generated, and only then the failure is
    reported, with nothing saved. *)
Theorem X19_missing_saveAs_fails_late (env : DocEnv) (m : Model) (content out : string) :
  PizZip_defined env = true → docxtemplater_defined env = true →
  fetch_template env = Return content → docx_generate env content m = Return out →
  saveAs_defined env = false →
  gerarDoc env m
  = (m, [fx_fetch "template.docx";
         fx_console (console_error "Erro ao gerar DOCX:");
         fx_alert "Falha ao gerar documento. Verifique o console."]).
Proof.
  intros H1 H2 H3 H4 H5. unfold gerarDoc. by rewrite H1, H2, H3, H4, H5.
Qed.

Lemma X19_witness :
  gerarDoc env_no_saveAs model_maria
  = (model_maria,
     [fx_fetch "template.docx";
      fx_console (console_error "Erro ao gerar DOCX:");
      fx_alert "Falha ao gerar documento. Verifique o console."]).
Proof.
  apply (X19_missing_saveAs_fails_late env_no_saveAs model_maria "PK" "PK");
    reflexivity.
Defined.

(** ** What assembly logs *)

Lemma warnings_of_unknown (items : list Item) :
  flat_map warnings_of items
  = (fun i => console_warn "Tipo desconhecido:" (type i)) <$> filter is_unknown items.
Proof.
  induction items as [|item items IH]; [done |].
  cbn [flat_map]. rewrite filter_cons, IH.
  unfold warnings_of, is_unknown.
  destruct (is_group item); [done |].
  by destruct (renderer_for (type item)).
Qed.

(** X20: assembly logs one warning for each descriptor it reaches that is
    neither a group nor of a type with a renderer, in schema order, naming
    the type, and logs nothing else, not even for a render that throws. *)
Theorem X20_one_warning_per_unknown_type (schema : list Item) :
  console (assemble schema).2
  = (fun i => console_warn "Tipo desconhecido:" (type i))
      <$> filter is_unknown (reached schema).
Proof.
  rewrite <- warnings_of_unknown, assemble_forEach.
  destruct (schema_renders_or_throws schema)
    as [[Hall ->] | (pre & item & post & -> & Hpre & Hitem & ->)].
  - destruct (forEach_ok schema _ [] Hall (on_page0 schema)) as (p & Hf & _ & _ & Hc).
    simpl current_ref in Hf. by rewrite Hf.
  - destruct (forEach_throw pre item post _ [] Hpre Hitem
                (on_page0 (pre ++ item :: post))) as (e & p & Hf & _ & _ & Hc).
    simpl current_ref in Hf. rewrite Hf. cbn [snd]. rewrite Hc.
    rewrite flat_map_app. cbn [flat_map console page0 app].
    assert (warnings_of item = []) as ->; [|by rewrite app_nil_r].
    unfold warnings_of. unfold renders in Hitem.
    destruct (renderer_for (type item)); [by destruct (is_group item) | done].
Qed.
